(** * backup_validate.py: create, verify, retry, rotate

    A shallow embedding of [src/backup_validate.py] and the properties of its
    backup pipeline.  The program is effectful Python: it reads the clock,
    reads and writes the file system, prints, sleeps and raises exceptions.
    The embedding threads an explicit [world] through a small state-and-
    exception monad [M]; each function of the source is one definition of
    the same name, written statement by statement.

    The libraries the program calls are modelled as follows.
    - [hashlib.sha256] is SHA-256 itself (module [Hashlib]).
    - [pathlib], [os], [shutil]: a tree of directories and files rooted at the
      working directory.  A path is its list of components.  Symbolic links,
      permissions, [..] and a separate root for absolute paths are not
      modelled; a directory lists its entries in the order of its entry list.
    - [tarfile]: the byte format of archives is a parameter ([TarCodec]);
      members are added and extracted as tarfile does.
    - [datetime], [time]: a clock in microseconds that only [time.sleep]
      advances.
    - [csv]: the default ([excel]) dialect. *)

From Stdlib Require Import ZArith List String Ascii Bool Lia DecimalString.
From Stdlib Require Import Permutation Sorted OrderedTypeEx.
From Stdlib.Strings Require Import Byte.
Import ListNotations.
Local Open Scope string_scope.
Local Open Scope list_scope.
Local Open Scope Z_scope.
Set Warnings "-register-all".

Definition bytes := list byte.

Infix "^^" := String.append (at level 60, right associativity).

(** ** hashlib.sha256 *)

Module Hashlib.

Definition mask32 (x : Z) : Z := Z.land x 0xffffffff.
Definition add32 (a b : Z) : Z := mask32 (a + b).
Definition rotr (n x : Z) : Z :=
  mask32 (Z.lor (Z.shiftr x n) (Z.shiftl x (32 - n))).

Definition Ch (x y z : Z) : Z :=
  Z.lxor (Z.land x y) (Z.land (Z.lxor x 0xffffffff) z).
Definition Maj (x y z : Z) : Z :=
  Z.lxor (Z.lxor (Z.land x y) (Z.land x z)) (Z.land y z).
Definition Sigma0 (x : Z) : Z := Z.lxor (Z.lxor (rotr 2 x) (rotr 13 x)) (rotr 22 x).
Definition Sigma1 (x : Z) : Z := Z.lxor (Z.lxor (rotr 6 x) (rotr 11 x)) (rotr 25 x).
Definition sigma0 (x : Z) : Z := Z.lxor (Z.lxor (rotr 7 x) (rotr 18 x)) (Z.shiftr x 3).
Definition sigma1 (x : Z) : Z := Z.lxor (Z.lxor (rotr 17 x) (rotr 19 x)) (Z.shiftr x 10).

(** The constants of FIPS 180-4 are the first 32 bits of the fractional parts
    of the square roots (initial hash value) and cube roots (round constants)
    of the first primes; they are computed here from that definition. *)
Definition is_prime (n : nat) : bool :=
  forallb (fun d => negb (Nat.eqb (Nat.modulo n d) 0)) (seq 2 (n - 2)).

Definition primes (count : nat) : list Z :=
  map Z.of_nat (firstn count (filter is_prime (seq 2 310))).

(** The integer [k]-th root, found bit by bit from the top. *)
Fixpoint iroot (k : Z) (n : Z) (bit : nat) (acc : Z) : Z :=
  match bit with
  | O => acc
  | S b =>
      let cand := acc + Z.shiftl 1 (Z.of_nat b) in
      iroot k n b (if cand ^ k <=? n then cand else acc)
  end.

Definition frac_root (k : Z) (p : Z) : Z :=
  mask32 (iroot k (Z.shiftl p (32 * k)) 40 0).

Definition K256 : list Z := Eval vm_compute in map (frac_root 3) (primes 64).

Definition H256 : list Z := Eval vm_compute in map (frac_root 2) (primes 8).

Definition byteZ (b : byte) : Z := Z.of_N (Byte.to_N b).
Definition Zbyte (z : Z) : byte :=
  match Byte.of_N (Z.to_N (Z.land z 0xff)) with Some b => b | None => x00 end.

(** Big-endian 32-bit words of a byte sequence (its length a multiple of 4). *)
Fixpoint words_of (bs : bytes) : list Z :=
  match bs with
  | a :: b :: c :: d :: r =>
      (Z.shiftl (byteZ a) 24 + Z.shiftl (byteZ b) 16 + Z.shiftl (byteZ c) 8 + byteZ d)
        :: words_of r
  | _ => []
  end.

Definition be_bytes (n : nat) (z : Z) : bytes :=
  map (fun i => Zbyte (Z.shiftr z (8 * Z.of_nat i))) (rev (seq 0 n)).

Definition pad (msg : bytes) : bytes :=
  let l := Z.of_nat (List.length msg) in
  msg ++ [x80] ++ repeat x00 (Z.to_nat ((55 - l) mod 64)) ++ be_bytes 8 (8 * l).

(** The message schedule, kept newest word first while it is extended. *)
Fixpoint extend (n : nat) (rw : list Z) : list Z :=
  match n with
  | O => rw
  | S n' =>
      extend n' (add32 (add32 (sigma1 (nth 1 rw 0)) (nth 6 rw 0))
                       (add32 (sigma0 (nth 14 rw 0)) (nth 15 rw 0)) :: rw)
  end.

Definition schedule (block : list Z) : list Z := rev (extend 48 (rev block)).

Record regs := Regs { ra : Z; rb : Z; rc : Z; rd : Z; re : Z; rf : Z; rg : Z; rh : Z }.

Definition round (s : regs) (kw : Z * Z) : regs :=
  let t1 := add32 (add32 (add32 (rh s) (Sigma1 (re s)))
                         (add32 (Ch (re s) (rf s) (rg s)) (fst kw))) (snd kw) in
  let t2 := add32 (Sigma0 (ra s)) (Maj (ra s) (rb s) (rc s)) in
  Regs (add32 t1 t2) (ra s) (rb s) (rc s) (add32 (rd s) t1) (re s) (rf s) (rg s).

Definition compress (s : regs) (block : list Z) : regs :=
  let s' := fold_left round (combine K256 (schedule block)) s in
  Regs (add32 (ra s) (ra s')) (add32 (rb s) (rb s')) (add32 (rc s) (rc s'))
       (add32 (rd s) (rd s')) (add32 (re s) (re s')) (add32 (rf s) (rf s'))
       (add32 (rg s) (rg s')) (add32 (rh s) (rh s')).

Fixpoint blocks (fuel : nat) (ws : list Z) : list (list Z) :=
  match fuel, ws with
  | S f, _ :: _ => firstn 16 ws :: blocks f (skipn 16 ws)
  | _, _ => []
  end.

Definition init : regs :=
  Regs (nth 0 H256 0) (nth 1 H256 0) (nth 2 H256 0) (nth 3 H256 0)
       (nth 4 H256 0) (nth 5 H256 0) (nth 6 H256 0) (nth 7 H256 0).

Definition digest (msg : bytes) : bytes :=
  let ws := words_of (pad msg) in
  let s := fold_left compress (blocks (List.length ws) ws) init in
  flat_map (be_bytes 4) [ra s; rb s; rc s; rd s; re s; rf s; rg s; rh s].

Definition hexdigit (z : Z) : ascii :=
  ascii_of_nat (Z.to_nat (if z <? 10 then 48 + z else 87 + z)).

Fixpoint hex (bs : bytes) : string :=
  match bs with
  | [] => EmptyString
  | b :: r =>
      String (hexdigit (Z.shiftr (byteZ b) 4)) (String (hexdigit (Z.land (byteZ b) 15)) (hex r))
  end.

(** A hash object is the bytes fed to it so far: [h = hashlib.sha256()],
    [h.update(chunk)], [h.hexdigest()]. *)
Definition sha256 : bytes := [].
Definition update (h chunk : bytes) : bytes := h ++ chunk.
Definition hexdigest (h : bytes) : string := hex (digest h).

End Hashlib.

(** ** Python values: str, int, exceptions *)

(** [s.encode()]. *)
Definition encode (s : string) : bytes := list_byte_of_string s.

(** [str(n)] for an int. *)
Definition str_of_int (z : Z) : string := NilZero.string_of_int (Z.to_int z).

(** A decimal numeral padded with zeros on the left to [width] characters,
    as the [%Y], [%m], ... fields of [strftime] are. *)
Fixpoint zeros (n : nat) : string :=
  match n with
  | O => EmptyString
  | S k => "0" ^^ zeros k
  end.

Definition zfill (width : nat) (s : string) : string :=
  zeros (width - String.length s) ^^ s.

Definition CR : ascii := ascii_of_nat 13.
Definition LF : ascii := ascii_of_nat 10.
Definition DQUOTE : ascii := ascii_of_nat 34.

(** The errors of the operating system the model can produce. *)
Inductive errno := ENOENT | EEXIST | ENOTDIR | EISDIR.

Inductive exn :=
| NameError (name : string)
| OSError (code : errno) (filename : string)
| StopIteration
| TarError (msg : string)
| SystemExit (status : Z).

(** [isinstance(e, Exception)]: what [except Exception] catches.
    [SystemExit] derives from [BaseException] only. *)
Definition is_Exception (e : exn) : bool :=
  match e with
  | SystemExit _ => false
  | _ => true
  end.

(** [str(e)]. *)
Definition str_of_exn (e : exn) : string :=
  match e with
  | NameError n => "name '" ^^ n ^^ "' is not defined"
  | OSError ENOENT f => "[Errno 2] No such file or directory: '" ^^ f ^^ "'"
  | OSError EEXIST f => "[Errno 17] File exists: '" ^^ f ^^ "'"
  | OSError ENOTDIR f => "[Errno 20] Not a directory: '" ^^ f ^^ "'"
  | OSError EISDIR f => "[Errno 21] Is a directory: '" ^^ f ^^ "'"
  | StopIteration => EmptyString
  | TarError m => m
  | SystemExit c => str_of_int c
  end.


(** ** pathlib: paths as component lists *)

Definition path := list string.

Fixpoint split_on (sep : ascii) (s : string) : list string :=
  match s with
  | EmptyString => [EmptyString]
  | String c r =>
      if Ascii.eqb c sep then EmptyString :: split_on sep r
      else match split_on sep r with
           | [] => [String c EmptyString]
           | h :: t => String c h :: t
           end
  end.

(** [pathlib.Path(s)]: empty and [.] components are dropped. *)
Definition Path (s : string) : path :=
  filter (fun c => negb (String.eqb c EmptyString || String.eqb c ".")) (split_on "/" s).

(** [str(p)]. *)
Definition str (p : path) : string :=
  match p with
  | [] => "."
  | _ => String.concat "/" p
  end.

(** [p.name]. *)
Definition name (p : path) : string := last p EmptyString.

(** [p.parent]. *)
Definition parent (p : path) : path := removelast p.

(** [p / s]. *)
Definition joinpath (p : path) (s : string) : path := p ++ Path s.

(** [p < q] on paths: the component lists compared lexicographically,
    components by code point. *)
Fixpoint path_ltb (p q : path) : bool :=
  match p, q with
  | _, [] => false
  | [], _ :: _ => true
  | x :: p', y :: q' =>
      match String.compare x y with
      | Lt => true
      | Gt => false
      | Eq => path_ltb p' q'
      end
  end.

(** ** sorted *)

(** Python's sort is stable and only asks [lt]: an element goes in front of
    the first one that is not smaller than it. *)
Fixpoint insert_by {A : Type} (lt : A -> A -> bool) (x : A) (l : list A) : list A :=
  match l with
  | [] => [x]
  | y :: r => if lt y x then y :: insert_by lt x r else x :: y :: r
  end.

Definition sorted_by {A : Type} (lt : A -> A -> bool) (l : list A) : list A :=
  fold_right (insert_by lt) [] l.

(** [sorted(l, key=..., reverse=...)] on a list already decorated with its
    keys: with [reverse] the order of the keys is flipped, equal keys keep
    their original order. *)
Definition sorted_key {A : Type} (reverse : bool) (l : list (Z * A)) : list A :=
  map snd (sorted_by (fun a b => if reverse then fst b <? fst a else fst a <? fst b) l).

(** [l[k:]] for an int [k], negative [k] counting from the end. *)
Definition slice_from {A : Type} (k : Z) (l : list A) : list A :=
  if k <? 0 then skipn (Z.to_nat (Z.of_nat (List.length l) + k)) l
  else skipn (Z.to_nat k) l.

(** ** The file system *)

Inductive node :=
| File (mtime : Z) (data : bytes)
| Dir (entries : list (string * node)).

Definition is_Dir (n : node) : bool :=
  match n with
  | Dir _ => true
  | File _ _ => false
  end.

Definition is_File (n : node) : bool := negb (is_Dir n).

Fixpoint assoc (x : string) (es : list (string * node)) : option node :=
  match es with
  | [] => None
  | (y, c) :: r => if String.eqb x y then Some c else assoc x r
  end.

Definition remove_entry (x : string) (es : list (string * node)) : list (string * node) :=
  filter (fun e => negb (String.eqb x (fst e))) es.

(** A new entry goes to the end of the listing; an existing one keeps its place. *)
Fixpoint replace_entry (x : string) (n : node) (es : list (string * node))
  : list (string * node) :=
  match es with
  | [] => [(x, n)]
  | (y, c) :: r => if String.eqb x y then (y, n) :: r else (y, c) :: replace_entry x n r
  end.

Definition set_entry (x : string) (v : option node) (es : list (string * node))
  : list (string * node) :=
  match v with
  | Some n => replace_entry x n es
  | None => remove_entry x es
  end.

Fixpoint lookup (p : path) (n : node) : option node :=
  match p with
  | [] => Some n
  | x :: q =>
      match n with
      | File _ _ => None
      | Dir es =>
          match assoc x es with
          | Some c => lookup q c
          | None => None
          end
      end
  end.

(** [put p v n]: the tree [n] with the entry at [p] set to [v] (removed when
    [v] is [None]); [None] when the parent of [p] is not a directory of [n]. *)
Fixpoint put (p : path) (v : option node) (n : node) : option node :=
  match p with
  | [] => None
  | x :: q =>
      match n with
      | File _ _ => None
      | Dir es =>
          match q with
          | [] => Some (Dir (set_entry x v es))
          | _ :: _ =>
              match assoc x es with
              | Some c =>
                  match put q v c with
                  | Some c' => Some (Dir (replace_entry x c' es))
                  | None => None
                  end
              | None => None
              end
          end
      end
  end.

(** [root.rglob("*")], relative to [root]: pathlib visits the directories in
    pre-order and yields the entries of each; that is the entries of the
    directory followed by the results for each subdirectory in turn. *)
Fixpoint rglob_star (n : node) : list path :=
  match n with
  | File _ _ => []
  | Dir es =>
      map (fun e => [fst e]) es
      ++ (fix sub (l : list (string * node)) : list path :=
            match l with
            | [] => []
            | (x, c) :: r => map (cons x) (rglob_star c) ++ sub r
            end) es
  end.

(** [root.rglob(name)] for a literal [name], relative to [root]: in each
    directory, in the same pre-order, the entry of that name if it exists. *)
Fixpoint rglob_name (nm : string) (n : node) : list path :=
  match n with
  | File _ _ => []
  | Dir es =>
      (match assoc nm es with Some _ => [[nm]] | None => [] end)
      ++ (fix sub (l : list (string * node)) : list path :=
            match l with
            | [] => []
            | (x, c) :: r => map (cons x) (rglob_name nm c) ++ sub r
            end) es
  end.

(** ** datetime *)

Record datetime := DateTime {
  year : Z; month : Z; day : Z; hour : Z; minute : Z; second : Z; microsecond : Z }.

(** The proleptic Gregorian date of a day count from 1970-01-01. *)
Definition civil_of_days (days : Z) : Z * Z * Z :=
  let z := days + 719468 in
  let era := z / 146097 in
  let doe := z - era * 146097 in
  let yoe := (doe - doe / 1460 + doe / 36524 - doe / 146096) / 365 in
  let doy := doe - (365 * yoe + yoe / 4 - yoe / 100) in
  let mp := (5 * doy + 2) / 153 in
  let d := doy - (153 * mp + 2) / 5 + 1 in
  let m := if mp <? 10 then mp + 3 else mp - 9 in
  (yoe + era * 400 + (if m <=? 2 then 1 else 0), m, d).

(** The UTC date and time of a clock reading in microseconds since the epoch. *)
Definition utc_of_clock (t : Z) : datetime :=
  let secs := t / 1000000 in
  let sod := secs mod 86400 in
  let '(y, m, d) := civil_of_days (secs / 86400) in
  DateTime y m d (sod / 3600) (sod mod 3600 / 60) (sod mod 60) (t mod 1000000).

Definition dec (width : nat) (z : Z) : string := zfill width (str_of_int z).

(** [d.strftime("%Y%m%dT%H%M%SZ")]. *)
Definition strftime_compact (d : datetime) : string :=
  dec 4 (year d) ^^ dec 2 (month d) ^^ dec 2 (day d) ^^ "T"
  ^^ dec 2 (hour d) ^^ dec 2 (minute d) ^^ dec 2 (second d) ^^ "Z".

(** [d.isoformat()]: the fraction is printed unless it is zero. *)
Definition isoformat (d : datetime) : string :=
  dec 4 (year d) ^^ "-" ^^ dec 2 (month d) ^^ "-" ^^ dec 2 (day d) ^^ "T"
  ^^ dec 2 (hour d) ^^ ":" ^^ dec 2 (minute d) ^^ ":" ^^ dec 2 (second d)
  ^^ (if microsecond d =? 0 then EmptyString else "." ^^ dec 6 (microsecond d)).

(** ** The world and the monad of effects *)

Record world := World {
  root : node;             (* the tree below the working directory *)
  clock : Z;               (* microseconds since the epoch *)
  stdout : list string     (* the lines printed so far *)
}.

Definition set_root (r : node) (w : world) : world := World r (clock w) (stdout w).

Inductive result (A : Type) :=
| Ok (a : A)
| Raise (e : exn)
| OutOfFuel.
Arguments Ok {A} a.
Arguments Raise {A} e.
Arguments OutOfFuel {A}.

Definition M (A : Type) : Type := world -> result A * world.

Definition ret {A : Type} (a : A) : M A := fun w => (Ok a, w).

Definition raise {A : Type} (e : exn) : M A := fun w => (Raise e, w).

Definition bind {A B : Type} (m : M A) (k : A -> M B) : M B :=
  fun w =>
    match m w with
    | (Ok a, w') => k a w'
    | (Raise e, w') => (Raise e, w')
    | (OutOfFuel, w') => (OutOfFuel, w')
    end.

Declare Scope py_scope.
Delimit Scope py_scope with py.
Notation "x <- m ;; k" := (bind m (fun x => k))
  (at level 100, m at next level, right associativity) : py_scope.
Notation "m ;; k" := (bind m (fun _ => k))
  (at level 100, right associativity) : py_scope.
Local Open Scope py_scope.

(** [try: body except Exception as e: handler(e)]. *)
Definition try_except {A : Type} (body : M A) (handler : exn -> M A) : M A :=
  fun w =>
    match body w with
    | (Raise e, w') => if is_Exception e then handler e w' else (Raise e, w')
    | other => other
    end.

(** [try: body finally: cleanup]: the cleanup runs on every exit of the body;
    an exception of the cleanup replaces the outcome of the body. *)
Definition try_finally {A : Type} (body : M A) (cleanup : M unit) : M A :=
  fun w =>
    match body w with
    | (OutOfFuel, w') => (OutOfFuel, w')
    | (r, w') =>
        match cleanup w' with
        | (Ok _, w'') => (r, w'')
        | (Raise e, w'') => (Raise e, w'')
        | (OutOfFuel, w'') => (OutOfFuel, w'')
        end
    end.

(** [for x in l: body(x)]. *)
Fixpoint for_each {A : Type} (l : list A) (body : A -> M unit) : M unit :=
  match l with
  | [] => ret tt
  | x :: r => body x ;; for_each r body
  end.

(** [[f(x) for x in l]]. *)
Fixpoint map_M {A B : Type} (f : A -> M B) (l : list A) : M (list B) :=
  match l with
  | [] => ret []
  | x :: r => y <- f x ;; ys <- map_M f r ;; ret (y :: ys)
  end.

(** [print(line)]. *)
Definition print (line : string) : M unit :=
  fun w => (Ok tt, World (root w) (clock w) (stdout w ++ [line])).

(** [time.sleep(seconds)]. *)
Definition sleep (seconds : Z) : M unit :=
  fun w => (Ok tt, World (root w) (clock w + seconds * 1000000) (stdout w)).

(** [datetime.datetime.utcnow()]. *)
Definition utcnow : M datetime := fun w => (Ok (utc_of_clock (clock w)), w).

(** *** os, pathlib and shutil on the tree *)

(** [p.exists()], [os.path.exists(str(p))]. *)
Definition path_exists (p : path) : M bool :=
  fun w => (Ok (match lookup p (root w) with Some _ => true | None => false end), w).

(** [p.is_dir()]. *)
Definition is_dir (p : path) : M bool :=
  fun w => (Ok (match lookup p (root w) with Some n => is_Dir n | None => false end), w).

(** [p.is_file()]. *)
Definition is_file (p : path) : M bool :=
  fun w => (Ok (match lookup p (root w) with Some n => is_File n | None => false end), w).

(** [p.mkdir()]. *)
Definition mkdir (p : path) : M unit :=
  fun w =>
    match lookup p (root w) with
    | Some _ => (Raise (OSError EEXIST (str p)), w)
    | None =>
        match put p (Some (Dir [])) (root w) with
        | Some r => (Ok tt, set_root r w)
        | None => (Raise (OSError ENOENT (str p)), w)
        end
    end.

(** [p.mkdir(parents=True, exist_ok=True)] for [p = pre ++ rest], the
    directory [pre] existing: every missing directory on the way is made; a
    component that is a file is an error. *)
Fixpoint makedirs_from (pre rest : path) : M unit :=
  match rest with
  | [] => ret tt
  | x :: q =>
      fun w =>
        match lookup (pre ++ [x]) (root w) with
        | Some (Dir _) => makedirs_from (pre ++ [x]) q w
        | Some (File _ _) =>
            (Raise (OSError (match q with [] => EEXIST | _ => ENOTDIR end)
                            (str (pre ++ rest))), w)
        | None => (mkdir (pre ++ [x]) ;; makedirs_from (pre ++ [x]) q) w
        end
  end.

Definition makedirs (p : path) : M unit := makedirs_from [] p.

(** [open(p, "rb").read()]. *)
Definition read_file (p : path) : M bytes :=
  fun w =>
    match lookup p (root w) with
    | Some (File _ d) => (Ok d, w)
    | Some (Dir _) => (Raise (OSError EISDIR (str p)), w)
    | None => (Raise (OSError ENOENT (str p)), w)
    end.

(** [p.stat().st_mtime]; the model keeps no time for directories. *)
Definition st_mtime (p : path) : M Z :=
  fun w =>
    match lookup p (root w) with
    | Some (File m _) => (Ok m, w)
    | Some (Dir _) => (Ok 0, w)
    | None => (Raise (OSError ENOENT (str p)), w)
    end.

(** The file [p] created or replaced, with contents [d] and modification time [m]. *)
Definition store_file (p : path) (m : Z) (d : bytes) : M unit :=
  fun w =>
    match lookup p (root w) with
    | Some (Dir _) => (Raise (OSError EISDIR (str p)), w)
    | _ =>
        match put p (Some (File m d)) (root w) with
        | Some r => (Ok tt, set_root r w)
        | None => (Raise (OSError ENOENT (str p)), w)
        end
    end.

(** [open(p, "wb").write(d)]. *)
Definition write_file (p : path) (d : bytes) : M unit :=
  fun w => store_file p (clock w) d w.

(** [open(p, "a").write(d)]. *)
Definition append_file (p : path) (d : bytes) : M unit :=
  fun w =>
    match lookup p (root w) with
    | Some (File _ old) => store_file p (clock w) (old ++ d) w
    | _ => store_file p (clock w) d w
    end.

(** [shutil.rmtree(str(p))]. *)
Definition rmtree (p : path) : M unit :=
  fun w =>
    match lookup p (root w) with
    | Some (Dir _) =>
        match put p None (root w) with
        | Some r => (Ok tt, set_root r w)
        | None => (Raise (OSError ENOTDIR (str p)), w)
        end
    | Some (File _ _) => (Raise (OSError ENOTDIR (str p)), w)
    | None => (Raise (OSError ENOENT (str p)), w)
    end.

(** [p.unlink()]. *)
Definition unlink (p : path) : M unit :=
  fun w =>
    match lookup p (root w) with
    | Some (File _ _) =>
        match put p None (root w) with
        | Some r => (Ok tt, set_root r w)
        | None => (Raise (OSError ENOENT (str p)), w)
        end
    | Some (Dir _) => (Raise (OSError EISDIR (str p)), w)
    | None => (Raise (OSError ENOENT (str p)), w)
    end.

(** [list(p.iterdir())]. *)
Definition iterdir (p : path) : M (list path) :=
  fun w =>
    match lookup p (root w) with
    | Some (Dir es) => (Ok (map (fun e => p ++ [fst e]) es), w)
    | Some (File _ _) => (Raise (OSError ENOTDIR (str p)), w)
    | None => (Raise (OSError ENOENT (str p)), w)
    end.

(** [list(p.rglob("*"))] and [list(p.rglob(name))]: nothing when [p] is not a directory. *)
Definition rglob (p : path) : M (list path) :=
  fun w =>
    (Ok (match lookup p (root w) with
         | Some n => map (app p) (rglob_star n)
         | None => []
         end), w).

Definition rglob_literal (p : path) (nm : string) : M (list path) :=
  fun w =>
    (Ok (match lookup p (root w) with
         | Some n => map (app p) (rglob_name nm n)
         | None => []
         end), w).

(** [next(it)] on the items an iterator would yield. *)
Definition next {A : Type} (items : list A) : M A :=
  match items with
  | x :: _ => ret x
  | [] => raise StopIteration
  end.

(** [[x for x in l if test(x)]]. *)
Fixpoint filter_M {A : Type} (test : A -> M bool) (l : list A) : M (list A) :=
  match l with
  | [] => ret []
  | x :: r => b <- test x ;; ys <- filter_M test r ;; ret (if b then x :: ys else ys)
  end.

(** [shutil.copy2(str(src), str(dst))]: contents and modification time. *)
Definition copy2 (src dst : path) : M unit :=
  fun w =>
    match lookup src (root w) with
    | Some (File m d) =>
        match lookup dst (root w) with
        | Some (Dir _) => store_file (dst ++ [name src]) m d w
        | _ => store_file dst m d w
        end
    | Some (Dir _) => (Raise (OSError EISDIR (str src)), w)
    | None => (Raise (OSError ENOENT (str src)), w)
    end.

(** ** tarfile *)

Inductive member :=
| MDir (arcname : path)
| MFile (arcname : path) (mtime : Z) (data : bytes).

(** The byte format of archives: what [tarfile] writes for a list of members
    (gzip-compressed or not) and what it reads back, [None] for bytes that
    are not an archive. *)
Class TarCodec := {
  tar_write : bool -> list member -> bytes;
  tar_read : bytes -> option (list member)
}.

Definition path_eqb (p q : path) : bool :=
  if list_eq_dec string_dec p q then true else false.

(** [tar.add(name, arcname)]: a file is one member, a directory is a member
    followed by its entries in the order of their names, recursively; the
    archive being written is skipped. *)
Fixpoint tar_add (self src arc : path) (n : node) : list member :=
  match n with
  | File m d => if path_eqb src self then [] else [MFile arc m d]
  | Dir es =>
      MDir arc
      :: List.concat (map snd
           (sorted_by (fun a b => String.ltb (fst a) (fst b))
              ((fix sub (l : list (string * node)) : list (string * list member) :=
                  match l with
                  | [] => []
                  | (x, c) :: r => (x, tar_add self (src ++ [x]) (arc ++ [x]) c) :: sub r
                  end) es)))
  end.

Definition gather (self src arc : path) : M (list member) :=
  fun w =>
    match lookup src (root w) with
    | Some n => (Ok (tar_add self src arc n), w)
    | None => (Raise (OSError ENOENT (str src)), w)
    end.

(** [tar.extractall(path=str(dest))]: each member in turn, missing parent
    directories made on the way, files restored with their modification time. *)
Definition extract (dest : path) (m : member) : M unit :=
  match m with
  | MDir a => makedirs (dest ++ a)
  | MFile a t d => makedirs (parent (dest ++ a)) ;; store_file (dest ++ a) t d
  end.

Definition extractall (ms : list member) (dest : path) : M unit :=
  for_each ms (extract dest).

(** ** csv *)

Fixpoint contains (c : ascii) (s : string) : bool :=
  match s with
  | EmptyString => false
  | String a r => Ascii.eqb a c || contains c r
  end.

Fixpoint double_quotes (s : string) : string :=
  match s with
  | EmptyString => EmptyString
  | String a r =>
      if Ascii.eqb a DQUOTE then String a (String a (double_quotes r))
      else String a (double_quotes r)
  end.

(** A field is quoted when it holds the delimiter, the quote or a line break. *)
Definition csv_field (s : string) : string :=
  if contains "," s || contains DQUOTE s || contains CR s || contains LF s
  then String DQUOTE (double_quotes s) ^^ String DQUOTE EmptyString
  else s.

(** [csv.writer(f).writerow(fields)]. *)
Definition csv_row (fields : list string) : string :=
  String.concat "," (map csv_field fields) ^^ String CR (String LF EmptyString).

(** * The program *)

(** The names bound in the module's global namespace when its functions run:
    the modules of the import statement (line 10) and the functions defined
    at top level.  Any other name that is not a builtin raises [NameError]
    when it is evaluated. *)
Definition module_globals : list string :=
  ["argparse"; "hashlib"; "tarfile"; "shutil"; "os"; "time"; "datetime"; "pathlib"; "csv";
   "sha256_of_file"; "make_backup"; "verify_backup"; "rotate_backups"; "log_entry"; "main"].

Definition load_global (nm : string) : M unit :=
  if existsb (String.eqb nm) module_globals then ret tt else raise (NameError nm).

(** [iter(lambda: f.read(size), b"")]: the successive reads of a file, up
    to the first empty one. *)
Fixpoint chunks (fuel size : nat) (d : bytes) : list bytes :=
  match fuel, d with
  | S f, _ :: _ => firstn size d :: chunks f size (skipn size d)
  | _, _ => []
  end.

(** Lines 12-17. *)
Definition sha256_of_file (p : path) : M string :=
  d <- read_file p ;;
  let h := fold_left Hashlib.update (chunks (List.length d) (Z.to_nat 8192) d) Hashlib.sha256 in
  ret (Hashlib.hexdigest h).

Section Program.

Context {codec : TarCodec}.

(** [tarfile.is_tarfile(str(p))]. *)
Definition is_tarfile (p : path) : M bool :=
  d <- read_file p ;;
  ret (match tar_read d with Some _ => true | None => false end).

(** [tarfile.open(str(p), "r:*")]: the members of the archive. *)
Definition tarfile_open (p : path) : M (list member) :=
  d <- read_file p ;;
  match tar_read d with
  | Some ms => ret ms
  | None => raise (TarError "file could not be opened successfully")
  end.

(** [with tarfile.open(out, mode) as tar: tar.add(str(src), arcname=arc)]:
    opening creates the archive file, leaving the block closes it. *)
Definition tarfile_create (out : path) (gz : bool) (src arc : path) : M unit :=
  write_file out (tar_write gz []) ;;
  ms <- gather out src arc ;;
  write_file out (tar_write gz ms).

(** Lines 23-40 of [make_backup]: the archive or copy itself. *)
Definition make_backup_artifact (ts : string) (src : path) (dest_dir : string)
    (compress : bool) : M string :=
  d <- is_dir src ;;
  if d then
    let fname := if compress then name src ^^ "_" ^^ ts ^^ ".tar.gz"
                 else name src ^^ "_" ^^ ts ^^ ".tar" in
    let out_path := joinpath (Path dest_dir) fname in
    tarfile_create out_path compress src (Path (name src)) ;;
    ret (str out_path)
  else
    let base := name src in
    let fname := if compress then base ^^ "_" ^^ ts ^^ ".gz" else base ^^ "_" ^^ ts in
    let out_path := joinpath (Path dest_dir) fname in
    (if compress then tarfile_create out_path true src (Path base)
     else copy2 src out_path) ;;
    ret (str out_path).

(** Lines 19-40.  Line 22 evaluates the name [Path], which the module never
    binds (line 10 imports the module [pathlib] only). *)
Definition make_backup (source dest_dir : string) (compress : bool) : M string :=
  now <- utcnow ;;
  let ts := strftime_compact now in
  let src := Path source in
  load_global "Path" ;;
  makedirs (Path dest_dir) ;;
  make_backup_artifact ts src dest_dir compress.

(** Lines 66-71. *)
Definition agg_checksum (rt : path) : M string :=
  found <- rglob rt ;;
  files <- filter_M is_file found ;;
  let items := sorted_by path_ltb files in
  h <- fold_left (fun acc f => h <- acc ;; s <- sha256_of_file f ;;
                               ret (Hashlib.update h (encode s)))
                 items (ret Hashlib.sha256) ;;
  ret (Hashlib.hexdigest h).

(** The scratch directory of [verify_backup] (line 45). *)
Definition tmpdir : path := Path "./.tmp_restore".

(** Lines 46-48. *)
Definition fresh_tmpdir : M unit :=
  e <- path_exists tmpdir ;;
  (if e then rmtree tmpdir else ret tt) ;;
  mkdir tmpdir.

(** Lines 50-75: the body of the [try]. *)
Definition verify_body (source backup_path : string) : M bool :=
  t <- is_tarfile (Path backup_path) ;;
  if t then
    ms <- tarfile_open (Path backup_path) ;;
    extractall ms tmpdir ;;
    restored_items <- iterdir tmpdir ;;
    let srcpath := Path source in
    f <- is_file srcpath ;;
    if f then
      found <- rglob_literal tmpdir (name srcpath) ;;
      restored_file <- next found ;;
      src_sum <- sha256_of_file srcpath ;;
      restored_sum <- sha256_of_file restored_file ;;
      ret (String.eqb src_sum restored_sum)
    else
      a <- agg_checksum srcpath ;;
      b <- agg_checksum (joinpath tmpdir (name srcpath)) ;;
      ret (String.eqb a b)
  else
    a <- sha256_of_file (Path source) ;;
    b <- sha256_of_file (Path backup_path) ;;
    ret (String.eqb a b).

(** Lines 42-77. *)
Definition verify_backup (source backup_path : string) : M bool :=
  fresh_tmpdir ;;
  try_finally (verify_body source backup_path) (rmtree tmpdir).

(** Lines 79-83. *)
Definition rotate_backups (dest_dir : string) (keep : Z) : M unit :=
  let p := Path dest_dir in
  entries <- iterdir p ;;
  regular <- filter_M is_file entries ;;
  keyed <- map_M (fun x => m <- st_mtime x ;; ret (m, x)) regular ;;
  let files := sorted_key true keyed in
  for_each (slice_from keep files) unlink.

Definition log_header : list string :=
  ["timestamp"; "source"; "backup_path"; "status"; "attempts"; "message"].

(** Lines 85-93. *)
Definition log_entry (logfile source backup_path status : string) (attempts : Z)
    (msg : string) : M unit :=
  now <- utcnow ;;
  let t := isoformat now in
  let row := [t; source; backup_path; status; str_of_int attempts; msg] in
  e <- path_exists (Path logfile) ;;
  let first := negb e in
  append_file (Path logfile)
    (encode ((if first then csv_row log_header else EmptyString) ^^ csv_row row)).

End Program.

(** ** main *)

(** The namespace [parser.parse_args()] returns. *)
Record args := Args {
  source : string;
  dest : string;
  compress : bool;
  retries : Z;
  keep : Z;
  logfile : string;
  restore : bool;
  backup : option string;
  target : option string
}.

(** The defaults of lines 97-105 for the two required options. *)
Definition default_args (src dst : string) : args :=
  Args src dst false 2 7 "./logs/backup_log.csv" false None None.

(** [not x] for an optional string: [None] and the empty string are false. *)
Definition falsy (x : option string) : bool :=
  match x with
  | None => true
  | Some s => String.eqb s EmptyString
  end.

Definition or_default (x : option string) : string :=
  match x with
  | Some s => s
  | None => EmptyString
  end.

Section Controller.

Context {codec : TarCodec}.

(** [main] calls [make_backup] and [verify_backup] through the module's
    global names, looked up at each call; the controller is written over
    whatever the two names are bound to, and [main] below binds them to the
    functions of the module. *)
Variable make_backup' : string -> string -> bool -> M string.
Variable verify_backup' : string -> string -> M bool.

(** Lines 126-134: what follows the verification, inside the [try]. *)
Definition after_verify (a : args) (attempts : Z) (backup_path : string) (ok : bool)
  : M bool :=
  if ok then
    log_entry (logfile a) (source a) backup_path "success" attempts EmptyString ;;
    rotate_backups (dest a) (keep a) ;;
    print ("Backup verified successfully: " ^^ backup_path) ;;
    ret true
  else
    log_entry (logfile a) (source a) backup_path "failure" attempts "checksum mismatch" ;;
    print "Verification failed, retrying..." ;;
    sleep 5 ;;
    ret false.

(** Lines 135-138: the handler, with the value [backup_path] has when the
    exception arrives. *)
Definition on_error (a : args) (attempts : Z) (backup_path : string) (e : exn) : M bool :=
  log_entry (logfile a) (source a)
    (if String.eqb backup_path EmptyString then "n/a" else backup_path)
    "failure" attempts (str_of_exn e) ;;
  print ("Error during backup: " ^^ str_of_exn e) ;;
  sleep 5 ;;
  ret false.

(** Lines 122-138: one pass of the loop body for the already incremented
    [attempts]; it returns the new values of [success] and [backup_path].
    An exception of [make_backup] reaches the handler with the old
    [backup_path]; a later one with the path just assigned.  Exceptions of
    the handler itself are not caught. *)
Definition attempt (a : args) (attempts : Z) (backup_path : string) : M (bool * string) :=
  fun w =>
    match make_backup' (source a) (dest a) (compress a) w with
    | (Ok bp, w1) =>
        (success <- try_except (ok <- verify_backup' (source a) bp ;;
                                after_verify a attempts bp ok)
                               (on_error a attempts bp) ;;
         ret (success, bp)) w1
    | (Raise e, w1) =>
        if is_Exception e
        then (success <- on_error a attempts backup_path e ;; ret (success, backup_path)) w1
        else (Raise e, w1)
    | (OutOfFuel, w1) => (OutOfFuel, w1)
    end.

(** Lines 121-138: [while attempts <= args.retries and not success]. *)
Fixpoint retry_loop (fuel : nat) (a : args) (attempts : Z) (success : bool)
    (backup_path : string) : M (Z * bool * string) :=
  if (attempts <=? retries a) && negb success then
    match fuel with
    | O => fun w => (OutOfFuel, w)
    | S f =>
        r <- attempt a (attempts + 1) backup_path ;;
        retry_loop f a (attempts + 1) (fst r) (snd r)
    end
  else ret (attempts, success, backup_path).

(** Lines 108-142.  The loop runs at most [retries + 1] times, which is the
    fuel it is given. *)
Definition main_with (a : args) : M unit :=
  if restore a then
    if falsy (backup a) || falsy (target a) then
      print "For restore: provide --backup and --target"
    else
      ms <- tarfile_open (Path (or_default (backup a))) ;;
      extractall ms (Path (or_default (target a))) ;;
      print "Restore completed."
  else
    st <- retry_loop (Z.to_nat (retries a + 1)) a 0 false EmptyString ;;
    if negb (snd (fst st)) then
      print "Backup failed after retries." ;;
      raise (SystemExit 1)
    else ret tt.

End Controller.

Definition main {codec : TarCodec} : args -> M unit := main_with make_backup verify_backup.

(** The exit status of the process for an outcome of [main]: an uncaught
    exception ends the interpreter with status 1. *)
Definition exit_status (r : result unit) : Z :=
  match r with
  | Ok _ => 0
  | Raise (SystemExit c) => c
  | Raise _ => 1
  | OutOfFuel => 0
  end.

(** * A concrete archive format

    A small self-describing container format, standing in for tar and gzip
    where the model is run on concrete inputs: a four-byte magic, then each
    member as a tag and length-prefixed fields.  The theorems below are
    proved for every codec. *)

Module SimpleTar.

Definition field (d : bytes) : bytes :=
  encode (str_of_int (Z.of_nat (List.length d)) ^^ ":") ++ d.

Definition write_member (m : member) : bytes :=
  match m with
  | MDir a => encode "D" ++ field (encode (str a))
  | MFile a t d =>
      encode "F" ++ field (encode (str a)) ++ field (encode (str_of_int t)) ++ field d
  end.

Definition write (gz : bool) (ms : list member) : bytes :=
  encode (if gz then "tgz!" else "tar!") ++ flat_map write_member ms.

Definition int_of_bytes (d : bytes) : option Z :=
  option_map Z.of_int (NilZero.int_of_string (string_of_list_byte d)).

(** The bytes up to the first colon, and what follows it. *)
Fixpoint until_colon (bs : bytes) : option (bytes * bytes) :=
  match bs with
  | [] => None
  | b :: r =>
      if Byte.eqb b ":"%byte then Some ([], r)
      else match until_colon r with
           | Some (h, t) => Some (b :: h, t)
           | None => None
           end
  end.

Definition read_field (bs : bytes) : option (bytes * bytes) :=
  match until_colon bs with
  | Some (len, r) =>
      match int_of_bytes len with
      | Some n =>
          if (0 <=? n) && (n <=? Z.of_nat (List.length r))
          then Some (firstn (Z.to_nat n) r, skipn (Z.to_nat n) r)
          else None
      | None => None
      end
  | None => None
  end.

Fixpoint read_members (fuel : nat) (bs : bytes) : option (list member) :=
  match bs with
  | [] => Some []
  | tag :: r =>
      match fuel with
      | O => None
      | S f =>
          match read_field r with
          | Some (a, r1) =>
              let arc := Path (string_of_list_byte a) in
              if Byte.eqb tag "D"%byte then
                option_map (cons (MDir arc)) (read_members f r1)
              else if Byte.eqb tag "F"%byte then
                match read_field r1 with
                | Some (t, r2) =>
                    match int_of_bytes t, read_field r2 with
                    | Some m, Some (d, r3) =>
                        option_map (cons (MFile arc m d)) (read_members f r3)
                    | _, _ => None
                    end
                | None => None
                end
              else None
          | None => None
          end
      end
  end.

Definition read (bs : bytes) : option (list member) :=
  match bs with
  | a :: b :: c :: d :: r =>
      let magic := string_of_list_byte [a; b; c; d] in
      if String.eqb magic "tgz!" || String.eqb magic "tar!"
      then read_members (List.length r) r
      else None
  | _ => None
  end.

End SimpleTar.

#[export] Instance simple_tar : TarCodec :=
  {| tar_write := SimpleTar.write; tar_read := SimpleTar.read |}.

(** * Concrete worlds *)

(** 2025-09-06 00:00:00 UTC. *)
Definition t0 : Z := 1757116800000000.

Definition hello : bytes := encode "hello".

(** A working directory with a source file, a source directory and a log directory. *)
Definition w_logs : world :=
  World (Dir [("data.csv", File 100 (encode "a,b"));
              ("logs", Dir []);
              ("site", Dir [("a.txt", File 10 hello); ("b.txt", File 20 (encode "world"))])])
        t0 [].

(** A working directory holding only the source file: no log directory yet. *)
Definition w_fresh : world :=
  World (Dir [("data.csv", File 100 (encode "a,b"))]) t0 [].

(** [verify(source, create(source, dest_dir, compress))]. *)
Definition round_trip {codec : TarCodec} (source dest_dir : string) (compress : bool)
  : M bool :=
  p <- make_backup source dest_dir compress ;;
  verify_backup source p.

(** [make_backup] without its line 22: what the function would do were the
    name bound. *)
Definition create_from_line_23 (source dest_dir : string) (compress : bool) : M string :=
  now <- utcnow ;;
  makedirs (Path dest_dir) ;;
  make_backup_artifact (strftime_compact now) (Path source) dest_dir compress.


(** * Vocabulary of the statements *)

(** The bytes of the log file, empty when there is none. *)
Definition log_text (lf : path) (w : world) : bytes :=
  match lookup lf (root w) with
  | Some (File _ d) => d
  | _ => []
  end.

(** What the next record is appended to: the log so far, or the header row
    when the log does not exist yet. *)
Definition log_base (lf : path) (w : world) : bytes :=
  match lookup lf (root w) with
  | Some (File _ d) => d
  | _ => encode (csv_row log_header)
  end.

(** The log can be appended to: its directory exists and the log path is not
    itself a directory. *)
Definition log_writable (lf : path) (w : world) : Prop :=
  exists d x es,
    lf = d ++ [x]
    /\ lookup d (root w) = Some (Dir es)
    /\ forall es', assoc x es <> Some (Dir es').

(** The record of a failed verification, as [log_entry] writes it. *)
Definition mismatch_row (a : args) (t backup_path : string) (attempts : Z) : bytes :=
  encode (csv_row [t; source a; backup_path; "failure"; str_of_int attempts;
                   "checksum mismatch"]).

(** Test doubles for the two steps of an attempt: creation always hands back
    the same path, verification always finds a mismatch. *)
Definition mk_const (p : string) : string -> string -> bool -> M string :=
  fun _ _ _ => ret p.

Definition vf_mismatch : string -> string -> M bool := fun _ _ => ret false.

(** The arguments of a run with the defaults, on the sample source file. *)
Definition a_default : args := default_args "data.csv" "backups".

(** The same with [--retries -1]. *)
Definition a_negative : args :=
  Args "data.csv" "backups" false (-1) 7 "./logs/backup_log.csv" false None None.

(** The scratch path of [verify_backup] is a directory. *)
Definition scratch_is_dir (w : world) : Prop :=
  exists es, lookup tmpdir (root w) = Some (Dir es).

(** [m] maintains [P] and returns (it does not run out of fuel). *)
Definition keeps (P : world -> Prop) {A : Type} (m : M A) : Prop :=
  forall w, P w -> P (snd (m w)) /\ fst (m w) <> OutOfFuel.

(** [m] only reads the world. *)
Definition read_only {A : Type} (m : M A) : Prop :=
  forall w, snd (m w) = w /\ fst (m w) <> OutOfFuel.

(** A working directory in which [.tmp_restore] already exists and holds a
    file of someone else, next to the source and a plain copy of it. *)
Definition w_stale : world :=
  World (Dir [("data.csv", File 100 (encode "a,b"));
              (".tmp_restore", Dir [("notes.txt", File 5 (encode "keep me"))]);
              ("backups", Dir [("data.csv_copy", File 100 (encode "a,b"))])])
        t0 [].


(** The modification time [rotate_backups] sorts an entry by. *)
Definition mtime_of (e : string * node) : Z :=
  match snd e with
  | File m _ => m
  | Dir _ => 0
  end.

(** The regular files and the subdirectories of a listing. *)
Definition regular (es : list (string * node)) : list (string * node) :=
  filter (fun e => is_File (snd e)) es.

Definition subdirs (es : list (string * node)) : list (string * node) :=
  filter (fun e => is_Dir (snd e)) es.

(** The regular files of a listing, most recently modified first. *)
Definition newest_first (es : list (string * node)) : list (string * node) :=
  sorted_by (fun a b => mtime_of b <? mtime_of a) (regular es).

(** The listing without the entries named like one of [gone]. *)
Definition without (gone es : list (string * node)) : list (string * node) :=
  filter (fun e => negb (existsb (String.eqb (fst e)) (map fst gone))) es.

(** A destination directory with five archives of distinct modification
    times, listed in no particular order, and a subdirectory. *)
Definition five_archives : list (string * node) :=
  [("data_3.gz", File 300 (encode "c"));
   ("data_1.gz", File 100 (encode "a"));
   ("old", Dir [("data_0.gz", File 50 (encode "z"))]);
   ("data_5.gz", File 500 (encode "e"));
   ("data_2.gz", File 200 (encode "b"));
   ("data_4.gz", File 400 (encode "d"))].

Definition w_five : world := World (Dir [("backups", Dir five_archives)]) t0 [].

(** [os.rename] of an entry inside its directory: the entry keeps its place
    in the listing. *)
Fixpoint rename_entry (old new : string) (es : list (string * node))
  : list (string * node) :=
  match es with
  | [] => []
  | (y, c) :: r =>
      if String.eqb old y then (new, c) :: r else (y, c) :: rename_entry old new r
  end.


(** The hex digest [sha256_of_file] computes for a file of contents [d]. *)
Definition file_hex (d : bytes) : string :=
  Hashlib.hexdigest
    (fold_left Hashlib.update (chunks (List.length d) (Z.to_nat 8192) d) Hashlib.sha256).

(** The regular files below a directory, as paths relative to it, in the
    order [rglob] yields them. *)
Definition files_of (n : node) : list path :=
  filter (fun q => match lookup q n with Some c => is_File c | None => false end)
         (rglob_star n).

Definition digest_at (n : node) (q : path) : string :=
  match lookup q n with
  | Some (File _ d) => file_hex d
  | _ => EmptyString
  end.

(** The aggregate checksum as a function of the directory tree alone: the
    digests of its files, taken in the order of their paths, hashed together. *)
Definition aggregate (n : node) : string :=
  Hashlib.hexdigest
    (fold_left (fun h q => Hashlib.update h (encode (digest_at n q)))
               (sorted_by path_ltb (files_of n)) Hashlib.sha256).


(** [m] returns or raises: the model does not run out of fuel on it. *)
Definition returns {A : Type} (m : M A) : Prop := keeps (fun _ => True) m.

(** The world is [w0] outside the scratch path: same clock and output, and
    the working directory lists what [rest] lists, the scratch entry apart. *)
Definition outside_scratch (rest : list (string * node)) (w0 w : world) : Prop :=
  exists es,
    root w = Dir es
    /\ remove_entry ".tmp_restore" es = rest
    /\ clock w = clock w0
    /\ stdout w = stdout w0.

(** Where the slice [files[keep:]] starts in a list of [n] files. *)
Definition slice_start (keep : Z) (n : nat) : nat :=
  if keep <? 0 then Z.to_nat (Z.of_nat n + keep) else Z.to_nat keep.

(** A record of [log_entry], as bytes. *)
Definition log_row (t src bp status : string) (attempts : Z) (msg : string) : bytes :=
  encode (csv_row [t; src; bp; status; str_of_int attempts; msg]).

(** The mismatch records of consecutive attempts, the first numbered [start],
    for the timestamps and backup paths [tps] of the attempts. *)
Fixpoint mismatch_rows (a : args) (start : Z) (tps : list (string * string)) : bytes :=
  match tps with
  | [] => []
  | (t, p) :: r => mismatch_row a t p start ++ mismatch_rows a (start + 1) r
  end.

(** A test double for a verification that succeeds. *)
Definition vf_ok : string -> string -> M bool := fun _ _ => ret true.

(** A test double for a creation that fails with an error of the archive library. *)
Definition mk_broken : string -> string -> bool -> M string :=
  fun _ _ _ => raise (TarError "disk full").

(** The sample world with a destination directory. *)
Definition w_dest : world :=
  World (Dir [("data.csv", File 100 (encode "a,b"));
              ("logs", Dir []);
              ("backups", Dir [("data.csv_1", File 100 (encode "a,b"))])])
        t0 [].

(** The arguments of [--restore --backup b --target t]. *)
Definition restore_args (b t : option string) : args :=
  Args EmptyString EmptyString false 2 7 "./logs/backup_log.csv" true b t.

(** A working directory with a compressed single-file archive of [data.csv]. *)
Definition w_archive : world :=
  World (Dir [("backups",
               Dir [("data.csv_1.gz",
                     File 200 (SimpleTar.write true
                                 [MFile ["data.csv"] 100 (encode "a,b")]))])])
        t0 [].

(** The three-way comparison behind [path_ltb]. *)
Fixpoint path_cmp (p q : path) : comparison :=
  match p, q with
  | [], [] => Eq
  | [], _ :: _ => Lt
  | _ :: _, [] => Gt
  | x :: p', y :: q' =>
      match String.compare x y with
      | Eq => path_cmp p' q'
      | c => c
      end
  end.

(** The bytes of the regular file at [q] below [n], if there is one. *)
Definition file_bytes (n : node) (q : path) : option bytes :=
  match lookup q n with
  | Some (File _ d) => Some d
  | _ => None
  end.

(** The directory [site] of the sample world listed in another order, with
    other modification times. *)
Definition w_reordered : world :=
  World (Dir [("site", Dir [("b.txt", File 77 (encode "world")); ("a.txt", File 99 hello)])])
        t0 [].

(** The name [make_backup] gives the artifact of a single file (line 33). *)
Definition file_artifact_name (src : path) (ts : string) (compress : bool) : string :=
  if compress then name src ^^ "_" ^^ ts ^^ ".gz" else name src ^^ "_" ^^ ts.
(** * Properties *)

(** ** The unbound name in [make_backup] *)

Lemma load_global_Path : forall w, load_global "Path" w = (Raise (NameError "Path"), w).
Proof. reflexivity. Qed.

Section Creation.

Context {codec : TarCodec}.

Lemma make_backup_stops :
  forall source dest_dir compress w,
    make_backup source dest_dir compress w = (Raise (NameError "Path"), w).
Proof.
  intros source dest_dir compress w.
  unfold make_backup, bind, utcnow.
  now rewrite load_global_Path.
Qed.

(** C2. [make_backup] raises [NameError] for the name [Path] on every
    source, destination and compress flag, before it touches the file
    system: it returns no archive path and leaves the world as it was (no
    destination directory made, no artifact written). *)
Theorem make_backup_raises_NameError :
  forall (source dest_dir : string) (compress : bool) (w : world),
    make_backup source dest_dir compress w = (Raise (NameError "Path"), w).
Proof.
  intros source dest_dir compress w.
  unfold make_backup, bind, utcnow.
  now rewrite load_global_Path.
Qed.

(** C1. The round trip [verify(source, create(source, dest, compress))] does
    not return true on the code: for every source and both compress settings
    it ends in the [NameError] of [make_backup], and verification is never
    reached. *)
Theorem round_trip_raises_NameError :
  forall (source dest_dir : string) (compress : bool) (w : world),
    round_trip source dest_dir compress w = (Raise (NameError "Path"), w).
Proof.
  intros source dest_dir compress w.
  unfold round_trip, make_backup, bind, utcnow.
  now rewrite load_global_Path.
Qed.

End Creation.

(** With line 22 out of the way the rest of [make_backup] and [verify_backup]
    do round-trip on the sample world, for a file and for a directory, with
    and without compression. *)
Example artifact_round_trip_file :
  forall compress : bool,
    fst ((p <- create_from_line_23 "data.csv" "backups" compress ;;
          verify_backup "data.csv" p) w_logs) = Ok true.
Proof. intros []; vm_compute; reflexivity. Qed.

Example artifact_round_trip_directory :
  forall compress : bool,
    fst ((p <- create_from_line_23 "site" "backups" compress ;;
          verify_backup "site" p) w_logs) = Ok true.
Proof. intros []; vm_compute; reflexivity. Qed.

Example sha256_abc :
  Hashlib.hexdigest (encode "abc")
  = "ba7816bf8f01cfea414140de5dae2223b00361a396177a9cb410ff61f20015ad".
Proof. vm_compute. reflexivity. Qed.

Example sha256_of_file_hello :
  fst (sha256_of_file (Path "site/a.txt") w_logs)
  = Ok "2cf24dba5fb0a30e26e83b2ac5b9e29e1b161e5c1fa7425e73043362938b9824".
Proof. vm_compute. reflexivity. Qed.

(** ** The retry loop *)

Section Retry.

Context {codec : TarCodec}.
Variable mk : string -> string -> bool -> M string.
Variable vf : string -> string -> M bool.

(** C10. With a negative [retries] the loop condition fails at once: no
    attempt is made (neither [make_backup] nor [verify_backup] is called,
    whatever they are), the file system and clock are untouched (no log
    record, no artifact), and [main] ends in [SystemExit(1)]. *)
Theorem negative_retries_no_attempt :
  forall (a : args) (w : world),
    restore a = false ->
    retries a < 0 ->
    main_with mk vf a w
    = (Raise (SystemExit 1),
       World (root w) (clock w) (stdout w ++ ["Backup failed after retries."]))
    /\ exit_status (fst (main_with mk vf a w)) = 1.
Proof.
  intros a w Hr Hneg.
  assert (E : main_with mk vf a w
              = (Raise (SystemExit 1),
                 World (root w) (clock w) (stdout w ++ ["Backup failed after retries."]))).
  { unfold main_with. rewrite Hr.
    assert (Hf : Z.to_nat (retries a + 1) = O) by lia.
    rewrite Hf. unfold bind. simpl retry_loop.
    assert (Hc : (0 <=? retries a) = false) by (apply Z.leb_gt; lia).
    rewrite Hc. reflexivity. }
  split; [exact E | now rewrite E].
Qed.

End Retry.

(** ** The file-system tree *)

Lemma assoc_replace_entry_same :
  forall x n es, assoc x (replace_entry x n es) = Some n.
Proof.
  intros x n es. induction es as [|[y c] r IH]; simpl.
  - now rewrite String.eqb_refl.
  - destruct (String.eqb x y) eqn:E; simpl; rewrite E; auto.
Qed.

Lemma assoc_replace_entry_other :
  forall x y n es, x <> y -> assoc y (replace_entry x n es) = assoc y es.
Proof.
  intros x y n es Hxy. induction es as [|[z c] r IH]; simpl.
  - destruct (String.eqb y x) eqn:E; auto.
    apply String.eqb_eq in E. congruence.
  - destruct (String.eqb x z) eqn:E; simpl.
    + apply String.eqb_eq in E. subst z.
      destruct (String.eqb y x) eqn:E'; auto.
      apply String.eqb_eq in E'. congruence.
    + now rewrite IH.
Qed.

Lemma assoc_remove_entry_same :
  forall x es, assoc x (remove_entry x es) = None.
Proof.
  intros x es. induction es as [|[y c] r IH]; simpl; auto.
  destruct (String.eqb x y) eqn:E; simpl; auto.
  now rewrite E.
Qed.

Lemma assoc_remove_entry_other :
  forall x y es, x <> y -> assoc y (remove_entry x es) = assoc y es.
Proof.
  intros x y es Hxy. induction es as [|[z c] r IH]; simpl; auto.
  destruct (String.eqb x z) eqn:E; simpl.
  - apply String.eqb_eq in E. subst z.
    destruct (String.eqb y x) eqn:E'; auto.
    apply String.eqb_eq in E'. congruence.
  - now rewrite IH.
Qed.

Lemma assoc_set_entry_same :
  forall x v es, assoc x (set_entry x v es) = v.
Proof.
  intros x [n|] es; simpl.
  - apply assoc_replace_entry_same.
  - apply assoc_remove_entry_same.
Qed.

Lemma assoc_set_entry_other :
  forall x y v es, x <> y -> assoc y (set_entry x v es) = assoc y es.
Proof.
  intros x y [n|] es H; simpl.
  - now apply assoc_replace_entry_other.
  - now apply assoc_remove_entry_other.
Qed.

Lemma lookup_app :
  forall p q n,
    lookup (p ++ q) n = match lookup p n with Some m => lookup q m | None => None end.
Proof.
  induction p as [|x p IH]; intros q n; simpl; auto.
  destruct n as [m d|es]; auto.
  destruct (assoc x es); auto.
Qed.

Lemma lookup_snoc :
  forall d x n es,
    lookup d n = Some (Dir es) -> lookup (d ++ [x]) n = assoc x es.
Proof.
  intros d x n es H. rewrite lookup_app, H. simpl.
  now destruct (assoc x es).
Qed.

(** Setting the entry [x] of the directory at [d]: it succeeds and changes
    the listing of [d] as [set_entry] says. *)
Lemma put_snoc :
  forall d x v n es,
    lookup d n = Some (Dir es) ->
    exists n', put (d ++ [x]) v n = Some n'
               /\ lookup d n' = Some (Dir (set_entry x v es)).
Proof.
  induction d as [|y d IH]; intros x v n es H; simpl in *.
  - inversion H; subst. eexists; split; reflexivity.
  - destruct n as [m dt|es0]; [discriminate|].
    destruct (assoc y es0) as [c|] eqn:Ey; [|discriminate].
    destruct (IH x v c es H) as (c' & Hput & Hlk).
    destruct (d ++ [x]) as [|z q] eqn:Eq.
    + destruct d; discriminate.
    + rewrite Hput. eexists; split; [reflexivity|].
      simpl. now rewrite assoc_replace_entry_same.
Qed.

Lemma lookup_put_same :
  forall p v n n', put p v n = Some n' -> lookup p n' = v.
Proof.
  induction p as [|x q IH]; intros v n n' H; simpl in H; [discriminate|].
  destruct n as [m d|es]; [discriminate|].
  destruct q as [|y q'].
  - inversion H; subst. simpl. rewrite assoc_set_entry_same. now destruct v.
  - destruct (assoc x es) as [c|] eqn:Ex; [|discriminate].
    destruct (put (y :: q') v c) as [c'|] eqn:Ep; [|discriminate].
    inversion H; subst. cbn [lookup]. rewrite assoc_replace_entry_same.
    now apply IH with (n := c).
Qed.

Lemma encode_app : forall a b, encode (a ^^ b) = encode a ++ encode b.
Proof.
  unfold encode, list_byte_of_string.
  induction a as [|c a IH]; intros b; simpl; auto.
  now rewrite IH.
Qed.

(** ** The log *)

Lemma log_entry_appends :
  forall lfs src bp st n msg w,
    log_writable (Path lfs) w ->
    exists r,
      log_entry lfs src bp st n msg w = (Ok tt, World r (clock w) (stdout w))
      /\ log_writable (Path lfs) (World r (clock w) (stdout w))
      /\ lookup (Path lfs) r
         = Some (File (clock w)
                   (log_base (Path lfs) w
                    ++ encode (csv_row [isoformat (utc_of_clock (clock w)); src; bp; st;
                                        str_of_int n; msg]))).
Proof.
  intros lfs src bp st n msg w (d & x & es & Hlf & Hd & Hx).
  unfold log_entry, bind, utcnow, path_exists, append_file, store_file, log_base.
  rewrite Hlf, (lookup_snoc d x (root w) es Hd).
  set (row := csv_row (isoformat _ :: _)).
  destruct (assoc x es) as [[m old|es']|] eqn:Ex.
  - destruct (put_snoc d x (Some (File (clock w) (old ++ encode (EmptyString ^^ row))))
                (root w) es Hd) as (r & Hput & Hlk).
    simpl negb. cbv iota. rewrite Hput. exists r. unfold set_root.
    split; [reflexivity|]. split.
    + exists d, x, (set_entry x (Some (File (clock w) (old ++ encode (EmptyString ^^ row)))) es).
      simpl root. repeat split; auto.
      intros es'. rewrite assoc_set_entry_same. discriminate.
    + now apply lookup_put_same in Hput.
  - exfalso. now apply (Hx es').
  - destruct (put_snoc d x (Some (File (clock w) (encode (csv_row log_header ^^ row))))
                (root w) es Hd) as (r & Hput & Hlk).
    simpl negb. cbv iota. rewrite Hput. exists r. unfold set_root.
    split; [reflexivity|]. split.
    + exists d, x, (set_entry x (Some (File (clock w) (encode (csv_row log_header ^^ row)))) es).
      simpl root. repeat split; auto.
      intros es'. rewrite assoc_set_entry_same. discriminate.
    + apply lookup_put_same in Hput. now rewrite Hput, encode_app.
Qed.

Lemma log_base_of_lookup :
  forall lf w w', lookup lf (root w') = lookup lf (root w) -> log_base lf w' = log_base lf w.
Proof. intros lf w w' H. unfold log_base. now rewrite H. Qed.

Section RetryBudget.

Context {codec : TarCodec}.
Variable mk : string -> string -> bool -> M string.
Variable vf : string -> string -> M bool.
Variable a : args.

Let lf : path := Path (logfile a).

(** Creation succeeds and verification reports a mismatch, in every world in
    which the log can be written, and neither touches the log. *)
Hypothesis mk_ok :
  forall w0, log_writable lf w0 ->
    exists p w1, mk (source a) (dest a) (compress a) w0 = (Ok p, w1)
                 /\ log_writable lf w1
                 /\ lookup lf (root w1) = lookup lf (root w0).
Hypothesis vf_false :
  forall p w0, log_writable lf w0 ->
    exists w1, vf (source a) p w0 = (Ok false, w1)
               /\ log_writable lf w1
               /\ lookup lf (root w1) = lookup lf (root w0).

Lemma attempt_mismatch :
  forall n bp0 w0,
    log_writable lf w0 ->
    exists p t w1,
      attempt mk vf a n bp0 w0 = (Ok (false, p), w1)
      /\ log_writable lf w1
      /\ log_text lf w1 = log_base lf w0 ++ mismatch_row a t p n
      /\ log_base lf w1 = log_text lf w1.
Proof.
  intros n bp0 w0 Hw0.
  destruct (mk_ok w0 Hw0) as (p & w1 & Hmk & Hw1 & Hl1).
  destruct (vf_false p w1 Hw1) as (w2 & Hvf & Hw2 & Hl2).
  destruct (log_entry_appends (logfile a) (source a) p "failure" n "checksum mismatch" w2 Hw2)
    as (r & Hlog & Hw3 & Hl3).
  exists p, (isoformat (utc_of_clock (clock w2))).
  eexists. unfold attempt. rewrite Hmk.
  unfold bind at 1. unfold try_except. unfold bind at 1. rewrite Hvf.
  unfold after_verify. unfold bind at 1. rewrite Hlog.
  unfold bind, print, sleep, ret. cbn [root clock stdout].
  split; [reflexivity|].
  destruct Hw3 as (d & x & es & E1 & E2 & E3).
  split; [exists d, x, es; auto|].
  fold lf in Hl3.
  split.
  - unfold log_text. cbn [root]. rewrite Hl3.
    rewrite (log_base_of_lookup lf w1 w2 Hl2), (log_base_of_lookup lf w0 w1 Hl1).
    reflexivity.
  - unfold log_base, log_text. cbn [root]. now rewrite Hl3.
Qed.

(** C3. With [retries = 2], creation succeeding and verification reporting a
    mismatch on every attempt (and the log file writable), the loop makes
    exactly three passes: it ends with [attempts = 3] and [success] false,
    the log has gained exactly three failure records, numbered 1, 2, 3 (after
    the header if the log was new), and [main] ends in [SystemExit(1)]: a
    nonzero exit status. *)
Theorem retry_budget_exhausted :
  forall w : world,
    restore a = false ->
    retries a = 2 ->
    log_writable lf w ->
    exists w' p1 p2 p3 t1 t2 t3,
      retry_loop mk vf (Z.to_nat (retries a + 1)) a 0 false EmptyString w
      = (Ok (3, false, p3), w')
      /\ log_text lf w'
         = log_base lf w ++ mismatch_row a t1 p1 1 ++ mismatch_row a t2 p2 2
           ++ mismatch_row a t3 p3 3
      /\ main_with mk vf a w
         = (Raise (SystemExit 1),
            World (root w') (clock w') (stdout w' ++ ["Backup failed after retries."]))
      /\ exit_status (fst (main_with mk vf a w)) = 1.
Proof.
  intros w Hres Hret Hw.
  destruct (attempt_mismatch 1 EmptyString w Hw) as (p1 & t1 & w1 & A1 & Hw1 & T1 & B1).
  destruct (attempt_mismatch 2 p1 w1 Hw1) as (p2 & t2 & w2 & A2 & Hw2 & T2 & B2).
  destruct (attempt_mismatch 3 p2 w2 Hw2) as (p3 & t3 & w3 & A3 & Hw3 & T3 & B3).
  assert (L : retry_loop mk vf (Z.to_nat (retries a + 1)) a 0 false EmptyString w
              = (Ok (3, false, p3), w3)).
  { rewrite Hret. change (Z.to_nat (2 + 1)) with 3%nat.
    cbn [retry_loop]. rewrite Hret.
    change (0 + 1 + 1 + 1) with 3. change (0 + 1 + 1) with 2. change (0 + 1) with 1.
    change (0 <=? 2) with true. change (1 <=? 2) with true.
    change (2 <=? 2) with true. change (3 <=? 2) with false.
    cbn [andb negb].
    unfold bind at 1. rewrite A1. cbn [fst snd negb].
    unfold bind at 1. rewrite A2. cbn [fst snd negb].
    unfold bind at 1. rewrite A3. cbn [fst snd negb].
    reflexivity. }
  assert (E : main_with mk vf a w
              = (Raise (SystemExit 1),
                 World (root w3) (clock w3) (stdout w3 ++ ["Backup failed after retries."]))).
  { unfold main_with. rewrite Hres. unfold bind at 1. rewrite L. reflexivity. }
  exists w3, p1, p2, p3, t1, t2, t3.
  split; [exact L|]. split.
  - rewrite T3, B2, T2, B1, T1. now rewrite <- !app_assoc.
  - split; [exact E | now rewrite E].
Qed.

End RetryBudget.

Lemma log_writable_w_logs : log_writable (Path (logfile a_default)) w_logs.
Proof.
  exists ["logs"], "backup_log.csv", [].
  repeat split; try reflexivity. intros es'. discriminate.
Defined.

Lemma ret_keeps_log :
  forall (A : Type) (x : A) (lf : path) (w0 : world),
    log_writable lf w0 ->
    exists w1, ret x w0 = (Ok x, w1) /\ log_writable lf w1
               /\ lookup lf (root w1) = lookup lf (root w0).
Proof. intros A x lf w0 H. exists w0. repeat split; auto. Defined.

Lemma retry_budget_exhausted_witness :
  restore a_default = false
  /\ retries a_default = 2
  /\ exists w' p1 p2 p3 t1 t2 t3,
      retry_loop (mk_const "backups/data.csv_20250906T000000Z") vf_mismatch
        (Z.to_nat (retries a_default + 1)) a_default 0 false EmptyString w_logs
      = (Ok (3, false, p3), w')
      /\ log_text (Path (logfile a_default)) w'
         = log_base (Path (logfile a_default)) w_logs
           ++ mismatch_row a_default t1 p1 1 ++ mismatch_row a_default t2 p2 2
           ++ mismatch_row a_default t3 p3 3
      /\ main_with (mk_const "backups/data.csv_20250906T000000Z") vf_mismatch a_default w_logs
         = (Raise (SystemExit 1),
            World (root w') (clock w') (stdout w' ++ ["Backup failed after retries."]))
      /\ exit_status
           (fst (main_with (mk_const "backups/data.csv_20250906T000000Z") vf_mismatch
                   a_default w_logs)) = 1.
Proof.
  split; [reflexivity|]. split; [reflexivity|].
  apply (retry_budget_exhausted (mk_const "backups/data.csv_20250906T000000Z") vf_mismatch
           a_default).
  - intros w0 H. exists "backups/data.csv_20250906T000000Z".
    apply (ret_keeps_log string _ _ w0 H).
  - intros p w0 H. apply (ret_keeps_log bool false _ w0 H).
  - reflexivity.
  - reflexivity.
  - exact log_writable_w_logs.
Defined.

Lemma negative_retries_no_attempt_witness :
  restore a_negative = false
  /\ retries a_negative < 0
  /\ main a_negative w_logs
     = (Raise (SystemExit 1),
        World (root w_logs) (clock w_logs) (stdout w_logs ++ ["Backup failed after retries."]))
  /\ exit_status (fst (main a_negative w_logs)) = 1.
Proof.
  split; [reflexivity|]. split; [reflexivity|].
  apply (negative_retries_no_attempt make_backup verify_backup a_negative w_logs);
    reflexivity.
Defined.

(** The pipeline as it is, on a world in which the log can be written: every
    attempt ends in the [NameError] of [make_backup], the handler records it,
    and after three attempts [main] exits with status 1. *)
Example main_three_NameError_records :
  let r := main a_default w_logs in
  fst r = Raise (SystemExit 1)
  /\ stdout (snd r)
     = ["Error during backup: name 'Path' is not defined";
        "Error during backup: name 'Path' is not defined";
        "Error during backup: name 'Path' is not defined";
        "Backup failed after retries."]
  /\ string_of_list_byte (log_text (Path (logfile a_default)) (snd r))
     = csv_row log_header
       ^^ csv_row ["2025-09-06T00:00:00"; "data.csv"; "n/a"; "failure"; "1";
                   "name 'Path' is not defined"]
       ^^ csv_row ["2025-09-06T00:00:05"; "data.csv"; "n/a"; "failure"; "2";
                   "name 'Path' is not defined"]
       ^^ csv_row ["2025-09-06T00:00:10"; "data.csv"; "n/a"; "failure"; "3";
                   "name 'Path' is not defined"].
Proof. vm_compute. repeat split. Qed.

(** C5. An error raised while the outcome of an attempt is handled does end
    the loop early.  In a working directory without [./logs] and with the
    default [--logfile] and [--retries 2], the first attempt fails (the
    [NameError] of [make_backup]), the handler calls [log_entry], whose
    [open] raises [FileNotFoundError], and nothing catches it: [main] ends
    after one attempt, with no record written, nothing printed and no sleep
    (the world is the initial one), two attempts of the budget unused. *)
Theorem handler_error_ends_loop_early :
  retries a_default = 2
  /\ main a_default w_fresh = (Raise (OSError ENOENT "logs/backup_log.csv"), w_fresh)
  /\ fst (attempt make_backup verify_backup a_default 1 EmptyString w_fresh)
     = Raise (OSError ENOENT "logs/backup_log.csv").
Proof. vm_compute. repeat split. Qed.

(** ** What maintains an invariant of the world *)

Create HintDb keeps.

Lemma read_only_keeps :
  forall (P : world -> Prop) (A : Type) (m : M A), read_only m -> keeps P m.
Proof.
  intros P A m H w Hw. destruct (H w) as [E F]. rewrite E. auto.
Qed.

Lemma keeps_ret : forall (P : world -> Prop) (A : Type) (x : A), keeps P (ret x).
Proof. intros P A x w Hw. simpl. split; [assumption|discriminate]. Qed.

Lemma keeps_raise : forall (P : world -> Prop) (A : Type) (e : exn), keeps P (@raise A e).
Proof. intros P A e w Hw. simpl. split; [assumption|discriminate]. Qed.

Lemma keeps_bind :
  forall (P : world -> Prop) (A B : Type) (m : M A) (k : A -> M B),
    keeps P m -> (forall x, keeps P (k x)) -> keeps P (bind m k).
Proof.
  intros P A B m k Hm Hk w Hw. unfold bind.
  destruct (Hm w Hw) as [H1 H2].
  destruct (m w) as [[x|e|] w1]; simpl in *.
  - now apply Hk.
  - split; [assumption|discriminate].
  - congruence.
Qed.

Lemma keeps_if :
  forall (P : world -> Prop) (A : Type) (b : bool) (m1 m2 : M A),
    keeps P m1 -> keeps P m2 -> keeps P (if b then m1 else m2).
Proof. intros P A [] m1 m2 H1 H2; assumption. Qed.

Lemma keeps_for_each :
  forall (P : world -> Prop) (A : Type) (body : A -> M unit) (l : list A),
    (forall x, keeps P (body x)) -> keeps P (for_each l body).
Proof.
  intros P A body l H. induction l as [|x r IH]; simpl.
  - apply keeps_ret.
  - apply keeps_bind; auto.
Qed.

Lemma keeps_filter_M :
  forall (P : world -> Prop) (A : Type) (test : A -> M bool) (l : list A),
    (forall x, keeps P (test x)) -> keeps P (filter_M test l).
Proof.
  intros P A test l H. induction l as [|x r IH]; simpl.
  - apply keeps_ret.
  - apply keeps_bind; auto. intros b.
    apply keeps_bind; auto. intros ys. apply keeps_ret.
Qed.

Lemma keeps_fold_left :
  forall (P : world -> Prop) (A B : Type) (step : M B -> A -> M B) (l : list A) (acc : M B),
    (forall m x, keeps P m -> keeps P (step m x)) ->
    keeps P acc -> keeps P (fold_left step l acc).
Proof.
  intros P A B step l. induction l as [|x r IH]; intros acc Hs Ha; simpl; auto.
Qed.

Ltac read_only_op :=
  let w := fresh "w" in
  intros w; cbv beta delta [path_exists is_dir is_file read_file st_mtime iterdir rglob
                             rglob_literal next utcnow ret raise];
  repeat match goal with
         | |- context [match ?x with _ => _ end] => destruct x
         end;
  simpl; (split; [reflexivity | discriminate]).

Lemma read_only_path_exists : forall p, read_only (path_exists p).
Proof. intros p. read_only_op. Qed.

Lemma read_only_is_dir : forall p, read_only (is_dir p).
Proof. intros p. read_only_op. Qed.

Lemma read_only_is_file : forall p, read_only (is_file p).
Proof. intros p. read_only_op. Qed.

Lemma read_only_read_file : forall p, read_only (read_file p).
Proof. intros p. read_only_op. Qed.

Lemma read_only_iterdir : forall p, read_only (iterdir p).
Proof. intros p. read_only_op. Qed.

Lemma read_only_rglob : forall p, read_only (rglob p).
Proof. intros p. read_only_op. Qed.

Lemma read_only_rglob_literal : forall p nm, read_only (rglob_literal p nm).
Proof. intros p nm. read_only_op. Qed.

Lemma read_only_next : forall (A : Type) (l : list A), read_only (next l).
Proof. intros A l. read_only_op. Qed.

#[local] Hint Resolve keeps_ret keeps_raise keeps_if keeps_for_each keeps_filter_M : keeps.
#[local] Hint Resolve read_only_path_exists read_only_is_dir read_only_is_file
  read_only_read_file read_only_iterdir read_only_rglob read_only_rglob_literal
  read_only_next read_only_keeps : keeps.

Ltac keeps_step :=
  first [ apply keeps_bind; [ | intros ? ]
        | apply keeps_if
        | apply keeps_ret
        | apply keeps_raise
        | apply keeps_for_each; intros ?
        | apply keeps_filter_M; intros ?
        | solve [ apply read_only_keeps; auto with keeps ] ].

Lemma keeps_sha256_of_file :
  forall (P : world -> Prop) p, keeps P (sha256_of_file p).
Proof. intros P p. unfold sha256_of_file. repeat keeps_step. Qed.

Lemma keeps_agg_checksum :
  forall (P : world -> Prop) p, keeps P (agg_checksum p).
Proof.
  intros P p. unfold agg_checksum. repeat keeps_step.
  apply keeps_fold_left; [|apply keeps_ret].
  intros m f Hm. repeat keeps_step; auto using keeps_sha256_of_file.
Qed.

(** ** The scratch directory *)

Lemma tmpdir_eq : tmpdir = [".tmp_restore"].
Proof. reflexivity. Qed.

Lemma put_deep :
  forall x y q v es,
    put (x :: y :: q) v (Dir es)
    = match assoc x es with
      | Some c =>
          match put (y :: q) v c with
          | Some c' => Some (Dir (replace_entry x c' es))
          | None => None
          end
      | None => None
      end.
Proof. reflexivity. Qed.

Lemma put_on_dir :
  forall p v es n', put p v (Dir es) = Some n' -> exists es', n' = Dir es'.
Proof.
  intros [|x [|y q]] v es n' H.
  - discriminate.
  - inversion H. eauto.
  - rewrite put_deep in H.
    destruct (assoc x es) as [c|]; [|discriminate].
    destruct (put (y :: q) v c); [|discriminate].
    inversion H. eauto.
Qed.

(** A change anywhere else leaves a directory of the working directory a directory. *)
Lemma put_keeps_top_dir :
  forall x p v n n' es,
    lookup [x] n = Some (Dir es) ->
    put p v n = Some n' ->
    p <> [x] ->
    exists es', lookup [x] n' = Some (Dir es').
Proof.
  intros x p v n n' es Hx Hput Hne.
  destruct n as [m d|es0]; [discriminate|].
  simpl in Hx. destruct (assoc x es0) as [c|] eqn:Ex; [|discriminate].
  inversion Hx; subst c; clear Hx.
  destruct p as [|y q]; [simpl in Hput; discriminate|].
  destruct q as [|z q'].
  - inversion Hput; subst n'. simpl.
    assert (Hyx : y <> x) by congruence.
    rewrite (assoc_set_entry_other y x v es0 Hyx), Ex. eauto.
  - rewrite put_deep in Hput.
    destruct (assoc y es0) as [c|] eqn:Ey; [|discriminate].
    destruct (put (z :: q') v c) as [c'|] eqn:Ep; [|discriminate].
    inversion Hput; subst n'. simpl.
    destruct (string_dec y x) as [->|Hyx].
    + rewrite assoc_replace_entry_same.
      rewrite Ex in Ey. inversion Ey; subst c.
      destruct (put_on_dir _ _ _ _ Ep) as [es' ->]. eauto.
    + rewrite (assoc_replace_entry_other y x c' es0 Hyx), Ex. eauto.
Qed.

Lemma keeps_scratch_mkdir : forall p, keeps scratch_is_dir (mkdir p).
Proof.
  intros p w [es Hs]. unfold mkdir.
  destruct (lookup p (root w)) as [n|] eqn:Ep.
  - simpl. split; [now exists es|discriminate].
  - destruct (put p (Some (Dir [])) (root w)) as [r|] eqn:Eput; simpl.
    + split; [|discriminate].
      apply (put_keeps_top_dir ".tmp_restore" p _ (root w) r es Hs Eput).
      intros ->. rewrite tmpdir_eq in Hs. congruence.
    + split; [now exists es|discriminate].
Qed.

Lemma keeps_scratch_store_file : forall p m d, keeps scratch_is_dir (store_file p m d).
Proof.
  intros p m d w [es Hs]. unfold store_file.
  assert (Hput : forall r, put p (Some (File m d)) (root w) = Some r ->
                           (forall es', lookup p (root w) <> Some (Dir es')) ->
                           scratch_is_dir (set_root r w)).
  { intros r Eput Hnd.
    apply (put_keeps_top_dir ".tmp_restore" p _ (root w) r es Hs Eput).
    intros ->. rewrite tmpdir_eq in Hs. now apply (Hnd es). }
  destruct (lookup p (root w)) as [[m0 d0|es0]|] eqn:Ep.
  - destruct (put p (Some (File m d)) (root w)) as [r|] eqn:Eput; simpl.
    + split; [|discriminate]. apply Hput; auto. discriminate.
    + split; [now exists es|discriminate].
  - simpl. split; [now exists es|discriminate].
  - destruct (put p (Some (File m d)) (root w)) as [r|] eqn:Eput; simpl.
    + split; [|discriminate]. apply Hput; auto. discriminate.
    + split; [now exists es|discriminate].
Qed.

Lemma keeps_scratch_makedirs_from :
  forall rest pre, keeps scratch_is_dir (makedirs_from pre rest).
Proof.
  induction rest as [|x q IH]; intros pre; simpl.
  - apply keeps_ret.
  - intros w Hw.
    destruct (lookup (pre ++ [x]) (root w)) as [[m d|es]|].
    + simpl. split; [assumption|discriminate].
    + now apply IH.
    + apply keeps_bind; auto using keeps_scratch_mkdir.
Qed.

Lemma keeps_scratch_extract :
  forall dst m, keeps scratch_is_dir (extract dst m).
Proof.
  intros dst [a|a t d]; simpl.
  - apply keeps_scratch_makedirs_from.
  - apply keeps_bind; [apply keeps_scratch_makedirs_from|].
    intros _. apply keeps_scratch_store_file.
Qed.

Lemma rmtree_scratch :
  forall w,
    scratch_is_dir w ->
    exists r, rmtree tmpdir w = (Ok tt, set_root r w) /\ lookup tmpdir r = None.
Proof.
  intros w [es H]. unfold rmtree. rewrite H. rewrite tmpdir_eq in *.
  destruct (root w) as [m d|es0]; [discriminate|].
  simpl. eexists; split; [reflexivity|].
  simpl. now rewrite assoc_remove_entry_same.
Qed.

Section Scratch.

Context {codec : TarCodec}.

Lemma keeps_scratch_verify_body :
  forall source backup_path, keeps scratch_is_dir (verify_body source backup_path).
Proof.
  intros source backup_path.
  unfold verify_body, is_tarfile, tarfile_open, extractall.
  repeat first [ apply keeps_sha256_of_file
               | apply keeps_agg_checksum
               | apply keeps_scratch_extract
               | match goal with
                 | |- keeps _ (match tar_read ?d with _ => _ end) => destruct (tar_read d)
                 end
               | keeps_step ].
Qed.

(** From a world in which the scratch directory exists, the body and its
    [finally] return, and the scratch path is gone afterwards. *)
Lemma scratch_removed_after_try :
  forall source backup_path w1,
    scratch_is_dir w1 ->
    let r := try_finally (verify_body source backup_path) (rmtree tmpdir) w1 in
    fst r <> OutOfFuel /\ lookup tmpdir (root (snd r)) = None.
Proof.
  intros source backup_path w1 H1.
  destruct (keeps_scratch_verify_body source backup_path w1 H1) as [[es2 H2] Hf].
  cbv zeta. unfold try_finally.
  destruct (verify_body source backup_path w1) as [res w2]. cbn [fst snd] in H2, Hf.
  assert (R := rmtree_scratch w2 (ex_intro _ es2 H2)).
  destruct R as (r & Hrm & Hnone).
  destruct res as [b|e|]; [| |congruence]; rewrite Hrm; simpl;
    (split; [discriminate|assumption]).
Qed.

Lemma fresh_tmpdir_cases :
  forall w,
    (exists w1, fresh_tmpdir w = (Ok tt, w1) /\ scratch_is_dir w1)
    \/ (exists e, fresh_tmpdir w = (Raise e, w)
                  /\ forall es, lookup tmpdir (root w) <> Some (Dir es)).
Proof.
  intros w. unfold fresh_tmpdir, bind, path_exists, rmtree, mkdir, ret, set_root.
  rewrite tmpdir_eq.
  destruct (root w) as [m d|es0] eqn:Er.
  - right. repeat progress (cbn -[str]; rewrite ?Er).
    eexists; split; [reflexivity|discriminate].
  - destruct (assoc ".tmp_restore" es0) as [[m d|es]|] eqn:Ea;
      repeat progress (cbn -[str remove_entry replace_entry];
                       rewrite ?Er, ?Ea, ?assoc_remove_entry_same).
    + right. eexists; split; [reflexivity|discriminate].
    + left. eexists; split; [reflexivity|].
      exists []. cbn -[replace_entry]. now rewrite assoc_replace_entry_same.
    + left. eexists; split; [reflexivity|].
      exists []. cbn -[replace_entry]. now rewrite assoc_replace_entry_same.
Qed.

Lemma verify_backup_completes :
  forall source backup_path w,
    (exists b, fst (verify_backup source backup_path w) = Ok b)
    \/ (exists e, fst (verify_backup source backup_path w) = Raise e).
Proof.
  intros source backup_path w.
  destruct (fresh_tmpdir_cases w) as [(w1 & Hf & Hs)|(e & Hf & Hn)].
  - assert (Hv : verify_backup source backup_path w
                 = try_finally (verify_body source backup_path) (rmtree tmpdir) w1).
    { unfold verify_backup, bind at 1. now rewrite Hf. }
    rewrite Hv.
    destruct (scratch_removed_after_try source backup_path w1 Hs) as [Hr _].
    cbv zeta in Hr.
    destruct (try_finally (verify_body source backup_path) (rmtree tmpdir) w1)
      as [[b|e|] w2]; cbn [fst] in *.
    + left. now exists b.
    + right. now exists e.
    + congruence.
  - assert (Hv : verify_backup source backup_path w = (Raise e, w)).
    { unfold verify_backup, bind at 1. now rewrite Hf. }
    rewrite Hv. right. now exists e.
Qed.




End Scratch.


(** The three kinds of exit on concrete worlds: a faithful copy verifies, a
    copy of other bytes does not, and a missing backup raises; the stale
    scratch directory of [w_stale] is gone each time. *)
Example verify_backup_exits :
  fst (verify_backup "data.csv" "backups/data.csv_copy" w_stale) = Ok true
  /\ fst (verify_backup "data.csv" ".tmp_restore/notes.txt" w_stale)
     = Raise (OSError ENOENT ".tmp_restore/notes.txt")
  /\ fst (verify_backup "data.csv" "data.csv" w_logs) = Ok true
  /\ fst (verify_backup "data.csv" "site/a.txt" w_logs) = Ok false.
Proof. vm_compute. repeat split. Qed.



(** ** Sorting *)

Section Sorting.

Variable A : Type.
Variable lt : A -> A -> bool.

Lemma insert_by_perm : forall x l, Permutation (insert_by lt x l) (x :: l).
Proof.
  intros x l. induction l as [|y r IH]; simpl.
  - apply Permutation_refl.
  - destruct (lt y x).
    + apply Permutation_trans with (y :: x :: r).
      * now apply perm_skip.
      * apply perm_swap.
    + apply Permutation_refl.
Qed.

Lemma sorted_by_perm : forall l, Permutation (sorted_by lt l) l.
Proof.
  induction l as [|x r IH]; simpl.
  - apply perm_nil.
  - apply Permutation_trans with (x :: sorted_by lt r).
    + apply insert_by_perm.
    + now apply perm_skip.
Qed.

End Sorting.

Lemma sorted_by_map :
  forall (A B : Type) (f : A -> B) (lt : A -> A -> bool) (lt' : B -> B -> bool),
    (forall a b, lt' (f a) (f b) = lt a b) ->
    forall l, sorted_by lt' (map f l) = map f (sorted_by lt l).
Proof.
  intros A B f lt lt' H.
  assert (I : forall x l, insert_by lt' (f x) (map f l) = map f (insert_by lt x l)).
  { intros x l. induction l as [|y r IH]; simpl; auto.
    rewrite H. destruct (lt y x); simpl; now rewrite ?IH. }
  induction l as [|x r IH]; simpl; auto.
  now rewrite IH, I.
Qed.

Section Descending.

Variable A : Type.
Variable key : A -> Z.

Let later (a b : A) : bool := key b <? key a.
Let ge (a b : A) : Prop := key b <= key a.

Lemma insert_by_descending :
  forall x l, StronglySorted ge l -> StronglySorted ge (insert_by later x l).
Proof.
  intros x l. induction l as [|y r IH]; intros S; simpl.
  - constructor; constructor.
  - apply StronglySorted_inv in S. destruct S as [Sr Fy].
    unfold later at 1. destruct (key x <? key y) eqn:E.
    + apply Z.ltb_lt in E. constructor; [now apply IH|].
      apply (Permutation_Forall (Permutation_sym (insert_by_perm A later x r))).
      constructor; [unfold ge; lia | assumption].
    + apply Z.ltb_ge in E. constructor.
      * constructor; assumption.
      * constructor; [exact E|].
        apply Forall_impl with (P := ge y); [|assumption].
        unfold ge. intros z Hz. lia.
Qed.

Lemma sorted_by_descending : forall l, StronglySorted ge (sorted_by later l).
Proof.
  induction l as [|x r IH]; simpl.
  - constructor.
  - now apply insert_by_descending.
Qed.

Lemma descending_split :
  forall front back,
    StronglySorted ge (front ++ back) ->
    forall a b, In a front -> In b back -> key b <= key a.
Proof.
  induction front as [|x r IH]; intros back S a b Ha Hb; [destruct Ha|].
  simpl in S. apply StronglySorted_inv in S. destruct S as [Sr Fx].
  destruct Ha as [->|Ha].
  - rewrite Forall_forall in Fx. apply Fx. apply in_or_app. now right.
  - now apply (IH back Sr).
Qed.

End Descending.

Lemma Permutation_filter :
  forall (A : Type) (f : A -> bool) (l l' : list A),
    Permutation l l' -> Permutation (filter f l) (filter f l').
Proof.
  intros A f l l' P. induction P; simpl.
  - apply perm_nil.
  - destruct (f x); auto.
  - destruct (f x), (f y); auto using perm_swap.
  - eapply Permutation_trans; eassumption.
Qed.

(** ** Monadic maps and filters whose function only reads the world *)

Lemma filter_M_map :
  forall (A B : Type) (f : A -> B) (test : B -> M bool) (g : A -> bool) (w : world)
         (l : list A),
    (forall e, In e l -> test (f e) w = (Ok (g e), w)) ->
    filter_M test (map f l) w = (Ok (map f (filter g l)), w).
Proof.
  intros A B f test g w l. induction l as [|x r IH]; intros H; simpl; auto.
  unfold bind. rewrite (H x (or_introl eq_refl)).
  rewrite IH by (intros e He; apply H; now right).
  unfold ret. now destruct (g x).
Qed.

Lemma map_M_map :
  forall (A B C : Type) (f : A -> B) (h : B -> M C) (k : A -> C) (w : world) (l : list A),
    (forall e, In e l -> h (f e) w = (Ok (k e), w)) ->
    map_M h (map f l) w = (Ok (map k l), w).
Proof.
  intros A B C f h k w l. induction l as [|x r IH]; intros H; simpl; auto.
  unfold bind. rewrite (H x (or_introl eq_refl)).
  rewrite IH by (intros e He; apply H; now right).
  reflexivity.
Qed.

Lemma assoc_In_NoDup :
  forall es e, NoDup (map fst es) -> In e es -> assoc (fst e) es = Some (snd e).
Proof.
  induction es as [|[y c] r IH]; intros e N H; [destruct H|].
  simpl in N. inversion N as [|? ? Hn Nr]; subst.
  simpl. destruct H as [<-|H].
  - simpl. now rewrite String.eqb_refl.
  - destruct (String.eqb (fst e) y) eqn:E.
    + apply String.eqb_eq in E. subst y. exfalso. apply Hn.
      now apply in_map.
    + now apply IH.
Qed.

(** ** Rotation *)

Lemma NoDup_map_filter :
  forall (A B : Type) (f : A -> B) (g : A -> bool) (l : list A),
    NoDup (map f l) -> NoDup (map f (filter g l)).
Proof.
  intros A B f g l. induction l as [|x r IH]; intros N; simpl; auto.
  simpl in N. inversion N as [|? ? Hn Nr]; subst.
  destruct (g x); simpl; auto.
  constructor; auto.
  intros Hin. apply Hn. apply in_map_iff in Hin. destruct Hin as (y & Ey & Hy).
  apply in_map_iff. exists y. split; auto.
  apply filter_In in Hy. tauto.
Qed.

Lemma NoDup_map_app_apart :
  forall (A B : Type) (f : A -> B) (front back : list A),
    NoDup (map f (front ++ back)) ->
    forall a b, In a front -> In b back -> f a <> f b.
Proof.
  intros A B f front. induction front as [|x r IH]; intros back N a b Ha Hb;
    [destruct Ha|].
  simpl in N. inversion N as [|? ? Hn Nr]; subst.
  destruct Ha as [->|Ha].
  - intros E. apply Hn. rewrite E. apply in_map. apply in_or_app. now right.
  - now apply (IH back Nr).
Qed.

Lemma same_name_same_entry :
  forall (es : list (string * node)) a b,
    NoDup (map fst es) -> In a es -> In b es -> fst a = fst b -> a = b.
Proof.
  intros es a b N Ha Hb E.
  assert (Sa := assoc_In_NoDup es a N Ha).
  assert (Sb := assoc_In_NoDup es b N Hb).
  rewrite E, Sb in Sa. inversion Sa.
  destruct a, b; simpl in *; congruence.
Qed.

Lemma filter_filter_comm :
  forall (A : Type) (f g : A -> bool) (l : list A),
    filter f (filter g l) = filter g (filter f l).
Proof.
  intros A f g l. induction l as [|x r IH]; simpl; auto.
  destruct (g x) eqn:G, (f x) eqn:F; simpl; rewrite ?G, ?F, IH; reflexivity.
Qed.

Lemma existsb_name :
  forall x (D : list (string * node)),
    existsb (String.eqb x) (map fst D) = true <-> In x (map fst D).
Proof.
  intros x D. rewrite existsb_exists. split.
  - intros (y & Hy & E). apply String.eqb_eq in E. now subst.
  - intros H. exists x. split; auto. apply String.eqb_refl.
Qed.

Lemma without_nil : forall es, without [] es = es.
Proof.
  intros es. unfold without. simpl.
  induction es as [|x r IH]; simpl; congruence.
Qed.

Lemma without_cons :
  forall d D es, without (d :: D) es = without D (remove_entry (fst d) es).
Proof.
  intros d D es. unfold without, remove_entry.
  induction es as [|e r IH]; [reflexivity|].
  simpl in IH |- *.
  rewrite (String.eqb_sym (fst e) (fst d)).
  destruct (String.eqb (fst d) (fst e)); simpl; rewrite IH; reflexivity.
Qed.

Lemma without_keeps :
  forall D l,
    (forall e, In e l -> ~ In (fst e) (map fst D)) -> without D l = l.
Proof.
  intros D l. induction l as [|x r IH]; intros H; simpl; auto.
  destruct (existsb (String.eqb (fst x)) (map fst D)) eqn:E; simpl.
  - apply existsb_name in E. exfalso. now apply (H x (or_introl eq_refl)).
  - f_equal. apply IH. intros e He. apply H. now right.
Qed.

Lemma without_drops :
  forall D l, (forall e, In e l -> In (fst e) (map fst D)) -> without D l = [].
Proof.
  intros D l. induction l as [|x r IH]; intros H; simpl; auto.
  destruct (existsb (String.eqb (fst x)) (map fst D)) eqn:E; simpl.
  - apply IH. intros e He. apply H. now right.
  - assert (T : existsb (String.eqb (fst x)) (map fst D) = true)
      by (apply existsb_name; apply H; now left).
    congruence.
Qed.

Lemma assoc_without :
  forall D es x, In x (map fst D) -> assoc x (without D es) = None.
Proof.
  intros D es x Hx. induction es as [|[y c] r IH]; simpl; auto.
  destruct (existsb (String.eqb y) (map fst D)) eqn:E; simpl; auto.
  destruct (String.eqb x y) eqn:Exy; auto.
  apply String.eqb_eq in Exy. subst y.
  apply existsb_name in Hx. congruence.
Qed.

Lemma unlink_all :
  forall p D es w,
    lookup p (root w) = Some (Dir es) ->
    NoDup (map fst D) ->
    (forall d, In d D -> exists m dt, assoc (fst d) es = Some (File m dt)) ->
    exists r,
      for_each (map (fun e => p ++ [fst e]) D) unlink w
      = (Ok tt, World r (clock w) (stdout w))
      /\ lookup p r = Some (Dir (without D es)).
Proof.
  intros p D. induction D as [|d D IH]; intros es w Hp N Hf.
  - exists (root w). rewrite without_nil. destruct w. split; [reflexivity|assumption].
  - simpl in N. inversion N as [|? ? Hn Nr]; subst.
    destruct (Hf d (or_introl eq_refl)) as (m & dt & Hd).
    destruct (put_snoc p (fst d) None (root w) es Hp) as (n' & Hput & Hlk).
    assert (Hrest : forall d', In d' D ->
                      exists m' dt', assoc (fst d') (remove_entry (fst d) es)
                                     = Some (File m' dt')).
    { intros d' Hd'. destruct (Hf d' (or_intror Hd')) as (m' & dt' & E).
      exists m', dt'. rewrite assoc_remove_entry_other; auto.
      intros Eq. apply Hn. rewrite Eq. now apply in_map. }
    destruct (IH (remove_entry (fst d) es) (set_root n' w) Hlk Nr Hrest) as (r & Hfor & Hr).
    exists r. split.
    + simpl. unfold bind. unfold unlink at 1.
      rewrite (lookup_snoc p (fst d) (root w) es Hp), Hd, Hput.
      exact Hfor.
    + now rewrite without_cons.
Qed.

Lemma rotate_backups_unfold :
  forall dest_dir k w es,
    lookup (Path dest_dir) (root w) = Some (Dir es) ->
    NoDup (map fst es) ->
    0 <= k ->
    rotate_backups dest_dir k w
    = for_each (map (fun e => Path dest_dir ++ [fst e])
                    (skipn (Z.to_nat k) (newest_first es))) unlink w.
Proof.
  intros dest_dir k w es Hp N Hk.
  set (p := Path dest_dir) in *.
  assert (Hlk : forall e, In e es -> lookup (p ++ [fst e]) (root w) = Some (snd e)).
  { intros e He. rewrite (lookup_snoc p (fst e) (root w) es Hp).
    now apply assoc_In_NoDup. }
  unfold rotate_backups. fold p. unfold bind at 1. unfold iterdir. rewrite Hp.
  cbv beta iota. unfold bind at 1.
  erewrite (filter_M_map _ _ _ _ (fun e => is_File (snd e)))
    by (intros e He; unfold is_file; now rewrite (Hlk e He)).
  cbv beta iota. fold (regular es). unfold bind at 1.
  erewrite (map_M_map _ _ _ _ _ (fun e => (mtime_of e, p ++ [fst e]))).
  - cbv beta iota. unfold ret, sorted_key, slice_from.
    assert (Hk' : (k <? 0) = false) by (apply Z.ltb_ge; lia).
    rewrite Hk'.
    rewrite (sorted_by_map _ _ (fun e => (mtime_of e, p ++ [fst e]))
               (fun a b => mtime_of b <? mtime_of a)) by reflexivity.
    rewrite map_map. simpl. now rewrite skipn_map.
  - intros e He. apply filter_In in He. destruct He as [He Hfile].
    unfold bind, st_mtime. rewrite (Hlk e He). unfold mtime_of.
    destruct (snd e); [reflexivity|discriminate].
Qed.

(** C7. In a destination directory with five regular files of pairwise
    distinct modification times, [rotate_backups] with [keep = 2] returns
    normally and leaves a listing in which exactly two regular files remain;
    the three others are deleted (their names are no longer there), every
    deleted file is older than every kept one, subdirectories are as they
    were, and a second [rotate_backups] with the same [keep] changes nothing. *)
Theorem rotate_keeps_two_newest :
  forall (dest_dir : string) (w : world) (es : list (string * node)),
    lookup (Path dest_dir) (root w) = Some (Dir es) ->
    NoDup (map fst es) ->
    List.length (regular es) = 5%nat ->
    NoDup (map mtime_of (regular es)) ->
    exists w' es' deleted,
      rotate_backups dest_dir 2 w = (Ok tt, w')
      /\ lookup (Path dest_dir) (root w') = Some (Dir es')
      /\ Permutation (regular es) (regular es' ++ deleted)
      /\ List.length (regular es') = 2%nat
      /\ List.length deleted = 3%nat
      /\ (forall k d, In k (regular es') -> In d deleted -> mtime_of d < mtime_of k)
      /\ (forall d, In d deleted -> assoc (fst d) es' = None)
      /\ subdirs es' = subdirs es
      /\ rotate_backups dest_dir 2 w' = (Ok tt, w').
Proof.
  intros dest_dir w es Hp N H5 Nm.
  set (p := Path dest_dir) in *.
  set (K := firstn 2 (newest_first es)).
  set (D := skipn 2 (newest_first es)).
  assert (HKD : K ++ D = newest_first es) by apply firstn_skipn.
  assert (P1 : Permutation (K ++ D) (regular es))
    by (rewrite HKD; apply sorted_by_perm).
  assert (Hlen : List.length (newest_first es) = 5%nat)
    by (rewrite <- H5; apply Permutation_length; rewrite <- HKD; exact P1).
  assert (HlK : List.length K = 2%nat) by (unfold K; rewrite length_firstn; lia).
  assert (HlD : List.length D = 3%nat) by (unfold D; rewrite length_skipn; lia).
  assert (Nreg : NoDup (map fst (regular es))) by (apply NoDup_map_filter; exact N).
  assert (NKD : NoDup (map fst (K ++ D))).
  { apply (Permutation_NoDup (l := map fst (regular es))); auto.
    apply Permutation_map. now apply Permutation_sym. }
  assert (NmKD : NoDup (map mtime_of (K ++ D))).
  { apply (Permutation_NoDup (l := map mtime_of (regular es))); auto.
    apply Permutation_map. now apply Permutation_sym. }
  assert (ND : NoDup (map fst D)).
  { rewrite map_app in NKD. now apply NoDup_app_remove_l in NKD. }
  assert (HDin : forall d, In d D -> In d es /\ is_File (snd d) = true).
  { intros d Hd.
    apply (proj1 (filter_In (fun e => is_File (snd e)) d es)).
    apply (Permutation_in d P1). apply in_or_app. now right. }
  assert (HDfile : forall d, In d D -> exists m dt, assoc (fst d) es = Some (File m dt)).
  { intros d Hd. destruct (HDin d Hd) as [Hi Hf].
    rewrite (assoc_In_NoDup es d N Hi). destruct (snd d); [eauto|discriminate]. }
  assert (HregW : regular (without D es) = without D (regular es))
    by apply filter_filter_comm.
  assert (PK : Permutation (regular (without D es)) K).
  { rewrite HregW. apply Permutation_trans with (without D (K ++ D)).
    - apply Permutation_filter. now apply Permutation_sym.
    - unfold without at 1. rewrite filter_app. fold (without D K). fold (without D D).
      rewrite (without_drops D D) by (intros e He; now apply in_map).
      rewrite app_nil_r, without_keeps; [apply Permutation_refl|].
      intros e He Hin. apply in_map_iff in Hin. destruct Hin as (d & Ed & Hd).
      now apply (NoDup_map_app_apart _ _ fst K D NKD e d He Hd). }
  destruct (unlink_all p D es w Hp ND HDfile) as (r & Hfor & Hr).
  assert (Hrot : rotate_backups dest_dir 2 w = (Ok tt, World r (clock w) (stdout w))).
  { rewrite (rotate_backups_unfold dest_dir 2 w es Hp N) by lia. exact Hfor. }
  exists (World r (clock w) (stdout w)), (without D es), D.
  split; [exact Hrot|]. split; [exact Hr|]. split.
  { apply Permutation_trans with (K ++ D); [now apply Permutation_sym|].
    apply Permutation_app_tail. now apply Permutation_sym. }
  split; [rewrite (Permutation_length PK); exact HlK|].
  split; [exact HlD|]. split.
  { intros k d Hk Hd.
    assert (HkK : In k K) by (apply (Permutation_in k PK); exact Hk).
    assert (Hle : mtime_of d <= mtime_of k).
    { apply (descending_split _ mtime_of K D); auto.
      rewrite HKD. apply sorted_by_descending. }
    assert (Hne : mtime_of k <> mtime_of d)
      by (apply (NoDup_map_app_apart _ _ mtime_of K D NmKD); auto).
    lia. }
  split.
  { intros d Hd. apply assoc_without. now apply in_map. }
  split.
  { unfold subdirs, without. rewrite filter_filter_comm.
    apply without_keeps. intros e He Hin.
    apply filter_In in He. destruct He as [He Hdir].
    apply in_map_iff in Hin. destruct Hin as (d & Ed & Hd).
    destruct (HDin d Hd) as [Hi Hf].
    assert (d = e) by (apply (same_name_same_entry es); auto). subst d.
    unfold is_File in Hf. rewrite Hdir in Hf. discriminate. }
  assert (N' : NoDup (map fst (without D es))) by (apply NoDup_map_filter; exact N).
  rewrite (rotate_backups_unfold dest_dir 2 (World r (clock w) (stdout w))
             (without D es) Hr N') by lia.
  assert (Hl2 : List.length (newest_first (without D es)) = 2%nat).
  { unfold newest_first.
    rewrite (Permutation_length (sorted_by_perm _ _ (regular (without D es)))).
    rewrite (Permutation_length PK). exact HlK. }
  rewrite skipn_all2 by (rewrite Hl2; simpl; lia).
  reflexivity.
Qed.

Lemma rotate_keeps_two_newest_witness :
  exists w' es' deleted,
    rotate_backups "backups" 2 w_five = (Ok tt, w')
    /\ lookup (Path "backups") (root w') = Some (Dir es')
    /\ Permutation (regular five_archives) (regular es' ++ deleted)
    /\ List.length (regular es') = 2%nat
    /\ List.length deleted = 3%nat
    /\ (forall k d, In k (regular es') -> In d deleted -> mtime_of d < mtime_of k)
    /\ (forall d, In d deleted -> assoc (fst d) es' = None)
    /\ subdirs es' = subdirs five_archives
    /\ rotate_backups "backups" 2 w' = (Ok tt, w').
Proof.
  apply (rotate_keeps_two_newest "backups" w_five five_archives).
  - reflexivity.
  - repeat constructor; simpl; intuition discriminate.
  - reflexivity.
  - repeat constructor; simpl; intuition discriminate.
Defined.

(** What is left of the five archives: the two newest and the subdirectory,
    in their old order. *)
Example rotate_five_archives :
  option_map (fun n => match n with Dir es => map fst es | File _ _ => [] end)
    (lookup (Path "backups") (root (snd (rotate_backups "backups" 2 w_five))))
  = Some ["old"; "data_5.gz"; "data_4.gz"].
Proof. vm_compute. reflexivity. Qed.

(** ** The aggregate checksum *)

Lemma string_compare_refl : forall s, String.compare s s = Eq.
Proof.
  intros s. destruct (String.compare s s) eqn:E; auto.
  - assert (H := String.compare_antisym s s). rewrite E in H. discriminate.
  - assert (H := String.compare_antisym s s). rewrite E in H. discriminate.
Qed.

Lemma path_ltb_app : forall rt a b, path_ltb (rt ++ a) (rt ++ b) = path_ltb a b.
Proof.
  induction rt as [|x r IH]; intros a b; simpl; auto.
  rewrite string_compare_refl. apply IH.
Qed.


Lemma sha256_of_file_at :
  forall rt q n m d w,
    lookup rt (root w) = Some n ->
    lookup q n = Some (File m d) ->
    sha256_of_file (rt ++ q) w = (Ok (digest_at n q), w).
Proof.
  intros rt q n m d w Hrt Hq.
  unfold sha256_of_file, bind, read_file, digest_at.
  rewrite lookup_app, Hrt, Hq. reflexivity.
Qed.

Lemma fold_digests :
  forall rt n w (items : list path),
    lookup rt (root w) = Some n ->
    (forall q, In q items -> exists m d, lookup q n = Some (File m d)) ->
    forall (acc : M bytes) (h : bytes),
      acc w = (Ok h, w) ->
      fold_left (fun acc f => h <- acc ;; s <- sha256_of_file f ;;
                              ret (Hashlib.update h (encode s)))
                (map (app rt) items) acc w
      = (Ok (fold_left (fun h q => Hashlib.update h (encode (digest_at n q))) items h), w).
Proof.
  intros rt n w items Hrt. induction items as [|q r IH]; intros Hf acc h Hacc; simpl.
  - exact Hacc.
  - apply IH.
    + intros q' Hq'. apply Hf. now right.
    + destruct (Hf q (or_introl eq_refl)) as (m & d & Hq).
      unfold bind. rewrite Hacc.
      now rewrite (sha256_of_file_at rt q n m d w Hrt Hq).
Qed.

(** [agg_checksum] of a directory is [aggregate] of its tree. *)
Lemma agg_checksum_aggregate :
  forall rt n w,
    lookup rt (root w) = Some n ->
    agg_checksum rt w = (Ok (aggregate n), w).
Proof.
  intros rt n w Hrt.
  unfold agg_checksum. unfold bind at 1. unfold rglob. rewrite Hrt. cbv beta iota.
  unfold bind at 1.
  erewrite (filter_M_map _ _ _ _
              (fun q => match lookup q n with Some c => is_File c | None => false end))
    by (intros q Hq; unfold is_file; now rewrite lookup_app, Hrt).
  cbv beta iota. fold (files_of n).
  rewrite (sorted_by_map _ _ (app rt) path_ltb path_ltb (path_ltb_app rt)).
  unfold bind at 1.
  rewrite (fold_digests rt n w (sorted_by path_ltb (files_of n)) Hrt)
    with (h := Hashlib.sha256); [reflexivity| |reflexivity].
  intros q Hq.
  apply (Permutation_in q (sorted_by_perm _ path_ltb (files_of n))) in Hq.
  apply filter_In in Hq. destruct Hq as [_ Hq].
  destruct (lookup q n) as [[m d|es]|]; [eauto|discriminate|discriminate].
Qed.




Lemma path_eqb_eq : forall p q, path_eqb p q = true <-> p = q.
Proof.
  intros p q. unfold path_eqb.
  destruct (list_eq_dec string_dec p q); split; auto; discriminate.
Qed.





Section Rename.

Variables old new : string.
Variable es : list (string * node).
Variable m : Z.
Variable d : bytes.
Hypothesis distinct_names : NoDup (map fst es).
Hypothesis old_is_file : assoc old es = Some (File m d).
Hypothesis new_is_free : assoc new es = None.

Let es' := rename_entry old new es.






End Rename.



Section RenameDigest.

Variables old new : string.
Variable es : list (string * node).
Variable m : Z.
Variable d : bytes.
Hypothesis distinct_names : NoDup (map fst es).
Hypothesis old_is_file : assoc old es = Some (File m d).
Hypothesis new_is_free : assoc new es = None.
Hypothesis keeps_order :
  forall q, In q (files_of (Dir es)) -> q <> [old] ->
    path_ltb q [old] = path_ltb q [new] /\ path_ltb [old] q = path_ltb [new] q.

Let es' := rename_entry old new es.








End RenameDigest.




(** ** The loop has fuel enough *)

Ltac returns_op :=
  let w := fresh "w" in
  intros w _;
  cbv beta delta [store_file write_file append_file unlink rmtree mkdir st_mtime print sleep
                  set_root];
  repeat match goal with
         | |- context [match ?x with _ => _ end] => destruct x
         end;
  simpl; (split; [exact I | discriminate]).

Lemma returns_store_file : forall p m d, returns (store_file p m d).
Proof. intros p m d. returns_op. Qed.

Lemma returns_append_file : forall p d, returns (append_file p d).
Proof. intros p d. returns_op. Qed.

Lemma returns_unlink : forall p, returns (unlink p).
Proof. intros p. returns_op. Qed.

Lemma returns_mkdir : forall p, returns (mkdir p).
Proof. intros p. returns_op. Qed.

Lemma returns_st_mtime : forall p, returns (st_mtime p).
Proof. intros p. returns_op. Qed.

Lemma returns_print : forall s, returns (print s).
Proof. intros s. returns_op. Qed.

Lemma returns_sleep : forall n, returns (sleep n).
Proof. intros n. returns_op. Qed.

Lemma returns_utcnow : returns utcnow.
Proof. intros w _. simpl. split; [exact I|discriminate]. Qed.

Lemma returns_map_M :
  forall (A B : Type) (f : A -> M B) (l : list A),
    (forall x, returns (f x)) -> returns (map_M f l).
Proof.
  intros A B f l H. unfold returns. induction l as [|x r IH]; simpl.
  - apply keeps_ret.
  - apply keeps_bind; [apply H|]. intros y.
    apply keeps_bind; [exact IH|]. intros ys. apply keeps_ret.
Qed.

Lemma returns_makedirs_from : forall rest pre, returns (makedirs_from pre rest).
Proof.
  unfold returns. induction rest as [|x q IH]; intros pre; simpl.
  - apply keeps_ret.
  - intros w Hw.
    destruct (lookup (pre ++ [x]) (root w)) as [[m d|es]|].
    + simpl. split; [exact I|discriminate].
    + now apply IH.
    + refine (keeps_bind (fun _ => True) _ _ (mkdir (pre ++ [x]))
                (fun _ => makedirs_from (pre ++ [x]) q) _ _ w I).
      * apply returns_mkdir.
      * intros _. apply IH.
Qed.

Lemma returns_extractall : forall ms dst, returns (extractall ms dst).
Proof.
  intros ms dst. unfold returns, extractall. apply keeps_for_each.
  intros [a|a t d]; simpl.
  - apply returns_makedirs_from.
  - apply keeps_bind; [apply returns_makedirs_from|].
    intros _. apply returns_store_file.
Qed.

Lemma returns_log_entry :
  forall lf src bp st n msg, returns (log_entry lf src bp st n msg).
Proof.
  intros lf src bp st n msg. unfold returns, log_entry.
  apply keeps_bind; [apply returns_utcnow|]. intros now.
  apply keeps_bind; [apply read_only_keeps, read_only_path_exists|]. intros e.
  apply returns_append_file.
Qed.

Lemma returns_rotate_backups : forall dst k, returns (rotate_backups dst k).
Proof.
  intros dst k. unfold returns, rotate_backups.
  apply keeps_bind; [apply read_only_keeps, read_only_iterdir|]. intros entries.
  apply keeps_bind.
  { apply keeps_filter_M. intros x. apply read_only_keeps, read_only_is_file. }
  intros regular.
  apply keeps_bind.
  { apply returns_map_M. intros x. unfold returns.
    apply keeps_bind; [apply returns_st_mtime|]. intros t. apply keeps_ret. }
  intros keyed. apply keeps_for_each. intros x. apply returns_unlink.
Qed.

Lemma returns_at :
  forall (A : Type) (m : M A) (w : world), returns m -> True /\ fst (m w) <> OutOfFuel.
Proof. intros A m w H. exact (H w I). Qed.

Section Fuel.

Context {codec : TarCodec}.
Variable mk : string -> string -> bool -> M string.
Variable vf : string -> string -> M bool.
Hypothesis mk_returns : forall s dst c, returns (mk s dst c).
Hypothesis vf_returns : forall s p, returns (vf s p).

Lemma returns_on_error : forall a n bp e, returns (on_error a n bp e).
Proof.
  intros a n bp e. unfold returns, on_error.
  apply keeps_bind; [apply returns_log_entry|]. intros _.
  apply keeps_bind; [apply returns_print|]. intros _.
  apply keeps_bind; [apply returns_sleep|]. intros _. apply keeps_ret.
Qed.

Lemma returns_after_verify : forall a n bp ok, returns (after_verify a n bp ok).
Proof.
  intros a n bp ok. unfold returns, after_verify. destruct ok.
  - apply keeps_bind; [apply returns_log_entry|]. intros _.
    apply keeps_bind; [apply returns_rotate_backups|]. intros _.
    apply keeps_bind; [apply returns_print|]. intros _. apply keeps_ret.
  - apply keeps_bind; [apply returns_log_entry|]. intros _.
    apply keeps_bind; [apply returns_print|]. intros _.
    apply keeps_bind; [apply returns_sleep|]. intros _. apply keeps_ret.
Qed.

Lemma returns_try_except :
  forall (A : Type) (body : M A) (handler : exn -> M A),
    returns body -> (forall e, returns (handler e)) -> returns (try_except body handler).
Proof.
  intros A body handler Hb Hh w _. unfold try_except.
  destruct (Hb w I) as [_ Hf].
  destruct (body w) as [[x|e|] w1]; simpl in *.
  - split; [exact I|discriminate].
  - destruct (is_Exception e).
    + now apply Hh.
    + simpl. split; [exact I|discriminate].
  - congruence.
Qed.

Lemma returns_attempt : forall a n bp, returns (attempt mk vf a n bp).
Proof.
  intros a n bp w _. unfold attempt.
  destruct (mk_returns (source a) (dest a) (compress a) w I) as [_ Hf].
  destruct (mk (source a) (dest a) (compress a) w) as [[p|e|] w1]; simpl in Hf.
  - apply returns_at. unfold returns.
    apply keeps_bind; [|intros s; apply keeps_ret].
    apply returns_try_except.
    + apply keeps_bind; [apply vf_returns|]. intros ok. apply returns_after_verify.
    + intros e. apply returns_on_error.
  - destruct (is_Exception e).
    + apply returns_at. unfold returns.
      apply keeps_bind; [apply returns_on_error|intros s; apply keeps_ret].
    + simpl. split; [exact I|discriminate].
  - congruence.
Qed.

(** The loop returns whenever its fuel covers the passes that are left. *)
Lemma retry_loop_returns :
  forall fuel a attempts success bp,
    (Z.to_nat (retries a + 1 - attempts) <= fuel)%nat ->
    returns (retry_loop mk vf fuel a attempts success bp).
Proof.
  induction fuel as [|f IH]; intros a attempts success bp Hfuel; simpl.
  - destruct ((attempts <=? retries a) && negb success) eqn:G.
    + apply andb_prop in G. destruct G as [G _]. apply Z.leb_le in G. lia.
    + apply keeps_ret.
  - destruct ((attempts <=? retries a) && negb success) eqn:G.
    + apply keeps_bind; [apply returns_attempt|]. intros r. apply IH. lia.
    + apply keeps_ret.
Qed.

(** [main] returns or raises for every argument namespace and world. *)
Lemma main_with_returns : forall a, returns (main_with mk vf a).
Proof.
  intros a. unfold returns, main_with.
  destruct (restore a).
  - destruct (falsy (backup a) || falsy (target a)).
    + apply returns_print.
    + unfold tarfile_open.
      apply keeps_bind.
      { apply keeps_bind; [apply read_only_keeps, read_only_read_file|].
        intros bs. destruct (tar_read bs); [apply keeps_ret|apply keeps_raise]. }
      intros ms. apply keeps_bind; [apply returns_extractall|].
      intros _. apply returns_print.
  - apply keeps_bind.
    + apply retry_loop_returns. lia.
    + intros st. destruct (negb (snd (fst st))).
      * apply keeps_bind; [apply returns_print|]. intros _. apply keeps_raise.
      * apply keeps_ret.
Qed.

End Fuel.

Lemma main_returns :
  forall {codec : TarCodec} (a : args) (w : world), fst (main a w) <> OutOfFuel.
Proof.
  intros codec a w.
  apply (main_with_returns make_backup verify_backup); [| |exact I].
  - intros s dst c w0 _. rewrite make_backup_stops. simpl. split; [exact I|discriminate].
  - intros s p w0 _. split; [exact I|].
    destruct (verify_backup_completes s p w0) as [[b E]|[e E]]; rewrite E; discriminate.
Qed.

(** * Further properties of the code *)

(** ** sha256_of_file (lines 12-17) *)

Lemma concat_chunks :
  forall (fuel size : nat) (d : bytes),
    (0 < size)%nat ->
    (List.length d <= fuel)%nat ->
    List.concat (chunks fuel size d) = d.
Proof.
  induction fuel as [|f IH]; intros size d Hs Hd.
  - destruct d; [reflexivity|simpl in Hd; lia].
  - destruct d as [|b r]; [reflexivity|].
    cbn [chunks List.concat]. rewrite IH; auto.
    + apply firstn_skipn.
    + rewrite length_skipn. cbn [List.length] in Hd |- *. lia.
Qed.

Lemma fold_update_concat :
  forall (l : list bytes) (h : bytes),
    fold_left Hashlib.update l h = h ++ List.concat l.
Proof.
  induction l as [|c r IH]; intros h; simpl.
  - now rewrite app_nil_r.
  - rewrite IH. unfold Hashlib.update. now rewrite app_assoc.
Qed.

Lemma file_hex_whole : forall d, file_hex d = Hashlib.hexdigest d.
Proof.
  intros d. unfold file_hex. rewrite fold_update_concat.
  unfold Hashlib.sha256. cbn [app].
  rewrite concat_chunks; auto. lia.
Qed.

(** Reading in chunks of 8192 bytes does not show in the result: for a
    regular file the function returns the SHA-256 hex digest of the whole
    contents, whatever its length, and leaves the world as it was. *)
Theorem sha256_of_file_whole_contents :
  forall (p : path) (w : world) (m : Z) (d : bytes),
    lookup p (root w) = Some (File m d) ->
    sha256_of_file p w = (Ok (Hashlib.hex (Hashlib.digest d)), w).
Proof.
  intros p w m d H.
  unfold sha256_of_file, bind, read_file. rewrite H. unfold ret.
  fold (file_hex d). now rewrite file_hex_whole.
Qed.

Lemma sha256_of_file_whole_contents_witness :
  lookup (Path "site/a.txt") (root w_logs) = Some (File 10 hello)
  /\ sha256_of_file (Path "site/a.txt") w_logs
     = (Ok (Hashlib.hex (Hashlib.digest hello)), w_logs).
Proof.
  split; [reflexivity|].
  apply (sha256_of_file_whole_contents (Path "site/a.txt") w_logs 10 hello).
  reflexivity.
Defined.



(** ** verify_backup (lines 42-77): what it leaves behind *)



Lemma remove_absent_entry :
  forall x es, assoc x es = None -> remove_entry x es = es.
Proof.
  intros x es. unfold remove_entry.
  induction es as [|[y c] r IH]; simpl; auto.
  destruct (String.eqb x y) eqn:E; [discriminate|].
  intros H. simpl. now rewrite IH.
Qed.


Section OutsideScratch.

Variable rest : list (string * node).
Variable w0 : world.

Let P := outside_scratch rest w0.






End OutsideScratch.


Section Frame.

Context {codec : TarCodec}.


Lemma fresh_tmpdir_result :
  forall w es0,
    root w = Dir es0 ->
    (forall m d, assoc ".tmp_restore" es0 <> Some (File m d)) ->
    fresh_tmpdir w
    = (Ok tt, set_root (Dir (replace_entry ".tmp_restore" (Dir [])
                               (remove_entry ".tmp_restore" es0))) w).
Proof.
  intros w es0 Hr Hnf.
  unfold fresh_tmpdir, bind, path_exists, rmtree, mkdir, ret, set_root.
  rewrite tmpdir_eq.
  destruct (assoc ".tmp_restore" es0) as [[m d|es]|] eqn:Ea.
  - exfalso. now apply (Hnf m d).
  - repeat progress (cbn -[str remove_entry replace_entry];
                     rewrite ?Hr, ?Ea, ?assoc_remove_entry_same).
    reflexivity.
  - repeat progress (cbn -[str remove_entry replace_entry]; rewrite ?Hr, ?Ea).
    now rewrite (remove_absent_entry _ _ Ea).
Qed.


End Frame.


Lemma sha256_of_file_reads :
  forall p w m d,
    lookup p (root w) = Some (File m d) ->
    sha256_of_file p w = (Ok (file_hex d), w).
Proof.
  intros p w m d H. unfold sha256_of_file, bind, read_file. now rewrite H.
Qed.

Lemma lookup_outside_fresh :
  forall es0 y q,
    y <> ".tmp_restore" ->
    lookup (y :: q)
      (Dir (replace_entry ".tmp_restore" (Dir []) (remove_entry ".tmp_restore" es0)))
    = lookup (y :: q) (Dir es0).
Proof.
  intros es0 y q Hy. cbn [lookup].
  assert (Hy' : ".tmp_restore" <> y) by congruence.
  now rewrite (assoc_replace_entry_other _ _ _ _ Hy'), (assoc_remove_entry_other _ _ _ Hy').
Qed.

Section PlainCopy.

Context {codec : TarCodec}.

(** The plain-copy branch (lines 73-75).  When the backup is a regular file
    whose bytes are not an archive, [verify_backup] returns whether the
    SHA-256 digests of the source and the backup agree: true for a
    byte-for-byte copy, and false only for different bytes. *)
Theorem verify_backup_plain_copy :
  forall (source backup_path : string) (w : world) (es0 : list (string * node))
         (y z : string) (p q : path) (sm bm : Z) (sd bd : bytes),
    root w = Dir es0 ->
    (forall m d, assoc ".tmp_restore" es0 <> Some (File m d)) ->
    Path source = y :: p -> y <> ".tmp_restore" ->
    Path backup_path = z :: q -> z <> ".tmp_restore" ->
    lookup (Path source) (root w) = Some (File sm sd) ->
    lookup (Path backup_path) (root w) = Some (File bm bd) ->
    tar_read bd = None ->
    fst (verify_backup source backup_path w)
    = Ok (String.eqb (Hashlib.hex (Hashlib.digest sd)) (Hashlib.hex (Hashlib.digest bd)))
    /\ (sd = bd -> fst (verify_backup source backup_path w) = Ok true)
    /\ (fst (verify_backup source backup_path w) = Ok false -> sd <> bd).
Proof.
  intros source backup_path w es0 y z p q sm bm sd bd Hr Hnf Hs Hy Hb Hz Hls Hlb Htar.
  assert (Hf := fresh_tmpdir_result w es0 Hr Hnf).
  set (es1 := replace_entry ".tmp_restore" (Dir []) (remove_entry ".tmp_restore" es0)) in *.
  set (w1 := set_root (Dir es1) w) in *.
  assert (Hls1 : lookup (Path source) (root w1) = Some (File sm sd)).
  { rewrite Hs in *. unfold w1, es1. cbn [set_root root].
    rewrite lookup_outside_fresh by assumption. now rewrite <- Hr. }
  assert (Hlb1 : lookup (Path backup_path) (root w1) = Some (File bm bd)).
  { rewrite Hb in *. unfold w1, es1. cbn [set_root root].
    rewrite lookup_outside_fresh by assumption. now rewrite <- Hr. }
  assert (Hs1 : scratch_is_dir w1).
  { exists []. rewrite tmpdir_eq. unfold w1, es1. cbn -[replace_entry remove_entry].
    now rewrite assoc_replace_entry_same. }
  assert (Hbody : verify_body source backup_path w1
                  = (Ok (String.eqb (file_hex sd) (file_hex bd)), w1)).
  { unfold verify_body, is_tarfile. unfold bind at 1. unfold bind at 1.
    unfold read_file at 1. rewrite Hlb1, Htar. unfold ret at 1.
    unfold bind at 1. rewrite (sha256_of_file_reads _ _ _ _ Hls1).
    unfold bind at 1. rewrite (sha256_of_file_reads _ _ _ _ Hlb1).
    reflexivity. }
  destruct (rmtree_scratch w1 Hs1) as (r & Hrm & _).
  assert (E : fst (verify_backup source backup_path w)
              = Ok (String.eqb (Hashlib.hex (Hashlib.digest sd))
                               (Hashlib.hex (Hashlib.digest bd)))).
  { unfold verify_backup, bind at 1. rewrite Hf. unfold try_finally.
    rewrite Hbody, Hrm. cbn [fst]. now rewrite !file_hex_whole. }
  split; [exact E|]. split.
  - intros ->. rewrite E. now rewrite String.eqb_refl.
  - intros F Heq. subst bd. rewrite E in F.
    rewrite String.eqb_refl in F. discriminate.
Qed.

End PlainCopy.

Lemma simple_tar_not_archive : tar_read (encode "a,b") = None.
Proof. reflexivity. Qed.

Lemma verify_backup_plain_copy_witness :
  fst (verify_backup "data.csv" "backups/data.csv_copy" w_stale)
  = Ok (String.eqb (Hashlib.hex (Hashlib.digest (encode "a,b")))
                   (Hashlib.hex (Hashlib.digest (encode "a,b"))))
  /\ (encode "a,b" = encode "a,b" ->
      fst (verify_backup "data.csv" "backups/data.csv_copy" w_stale) = Ok true)
  /\ (fst (verify_backup "data.csv" "backups/data.csv_copy" w_stale) = Ok false ->
      encode "a,b" <> encode "a,b").
Proof.
  apply (verify_backup_plain_copy "data.csv" "backups/data.csv_copy" w_stale
           [("data.csv", File 100 (encode "a,b"));
            (".tmp_restore", Dir [("notes.txt", File 5 (encode "keep me"))]);
            ("backups", Dir [("data.csv_copy", File 100 (encode "a,b"))])]
           "data.csv" "backups" [] ["data.csv_copy"] 100 100).
  - reflexivity.
  - intros m d. discriminate.
  - reflexivity.
  - discriminate.
  - reflexivity.
  - discriminate.
  - reflexivity.
  - reflexivity.
  - exact simple_tar_not_archive.
Defined.

(** ** rotate_backups (lines 79-83) for any [keep] *)

Lemma slice_from_skipn :
  forall (A : Type) (k : Z) (l : list A),
    slice_from k l = skipn (slice_start k (List.length l)) l.
Proof. intros A k l. unfold slice_from, slice_start. now destruct (k <? 0). Qed.

Lemma rotate_backups_unlinks :
  forall dest_dir k w es,
    lookup (Path dest_dir) (root w) = Some (Dir es) ->
    NoDup (map fst es) ->
    rotate_backups dest_dir k w
    = for_each (map (fun e => Path dest_dir ++ [fst e])
                    (slice_from k (newest_first es))) unlink w.
Proof.
  intros dest_dir k w es Hp N.
  set (p := Path dest_dir) in *.
  assert (Hlk : forall e, In e es -> lookup (p ++ [fst e]) (root w) = Some (snd e)).
  { intros e He. rewrite (lookup_snoc p (fst e) (root w) es Hp).
    now apply assoc_In_NoDup. }
  unfold rotate_backups. fold p. unfold bind at 1. unfold iterdir. rewrite Hp.
  cbv beta iota. unfold bind at 1.
  erewrite (filter_M_map _ _ _ _ (fun e => is_File (snd e)))
    by (intros e He; unfold is_file; now rewrite (Hlk e He)).
  cbv beta iota. fold (regular es). unfold bind at 1.
  erewrite (map_M_map _ _ _ _ _ (fun e => (mtime_of e, p ++ [fst e]))).
  - cbv beta iota. unfold ret, sorted_key.
    rewrite (sorted_by_map _ _ (fun e => (mtime_of e, p ++ [fst e]))
               (fun a b => mtime_of b <? mtime_of a)) by reflexivity.
    rewrite map_map. cbn [snd]. fold (newest_first es).
    rewrite !slice_from_skipn, length_map. now rewrite skipn_map.
  - intros e He. apply filter_In in He. destruct He as [He Hfile].
    unfold bind, st_mtime. rewrite (Hlk e He). unfold mtime_of.
    destruct (snd e); [reflexivity|discriminate].
Qed.

(** What one call does, for any [keep]: the files from index [slice_start]
    on of the newest-first order are unlinked, nothing else changes. *)
Lemma rotate_backups_general :
  forall dest_dir k w es,
    lookup (Path dest_dir) (root w) = Some (Dir es) ->
    NoDup (map fst es) ->
    let s := slice_start k (List.length (regular es)) in
    let K := firstn s (newest_first es) in
    let D := skipn s (newest_first es) in
    exists r,
      rotate_backups dest_dir k w = (Ok tt, World r (clock w) (stdout w))
      /\ lookup (Path dest_dir) r = Some (Dir (without D es))
      /\ Permutation (regular es) (K ++ D)
      /\ Permutation (regular (without D es)) K
      /\ subdirs (without D es) = subdirs es
      /\ (forall a b, In a K -> In b D -> mtime_of b <= mtime_of a)
      /\ (forall b, In b D -> assoc (fst b) (without D es) = None).
Proof.
  intros dest_dir k w es Hp N s K D.
  set (p := Path dest_dir) in *.
  assert (HKD : K ++ D = newest_first es) by apply firstn_skipn.
  assert (P1 : Permutation (K ++ D) (regular es))
    by (rewrite HKD; apply sorted_by_perm).
  assert (Nreg : NoDup (map fst (regular es))) by (apply NoDup_map_filter; exact N).
  assert (NKD : NoDup (map fst (K ++ D))).
  { apply (Permutation_NoDup (l := map fst (regular es))); auto.
    apply Permutation_map. now apply Permutation_sym. }
  assert (ND : NoDup (map fst D)).
  { rewrite map_app in NKD. now apply NoDup_app_remove_l in NKD. }
  assert (HDin : forall b, In b D -> In b es /\ is_File (snd b) = true).
  { intros b Hb.
    apply (proj1 (filter_In (fun e => is_File (snd e)) b es)).
    apply (Permutation_in b P1). apply in_or_app. now right. }
  assert (HDfile : forall b, In b D -> exists m dt, assoc (fst b) es = Some (File m dt)).
  { intros b Hb. destruct (HDin b Hb) as [Hi Hf].
    rewrite (assoc_In_NoDup es b N Hi). destruct (snd b); [eauto|discriminate]. }
  destruct (unlink_all p D es w Hp ND HDfile) as (r & Hfor & Hr).
  exists r. split.
  { rewrite (rotate_backups_unlinks dest_dir k w es Hp N), slice_from_skipn.
    assert (Hlen : List.length (newest_first es) = List.length (regular es))
      by (apply Permutation_length, sorted_by_perm).
    rewrite Hlen. exact Hfor. }
  split; [exact Hr|]. split; [now apply Permutation_sym|]. split.
  { assert (HregW : regular (without D es) = without D (regular es))
      by apply filter_filter_comm.
    rewrite HregW. apply Permutation_trans with (without D (K ++ D)).
    - apply Permutation_filter. now apply Permutation_sym.
    - unfold without at 1. rewrite filter_app. fold (without D K). fold (without D D).
      rewrite (without_drops D D) by (intros e He; now apply in_map).
      rewrite app_nil_r, without_keeps; [apply Permutation_refl|].
      intros e He Hin. apply in_map_iff in Hin. destruct Hin as (b & Eb & Hb).
      now apply (NoDup_map_app_apart _ _ fst K D NKD e b He Hb). }
  split.
  { unfold subdirs, without. rewrite filter_filter_comm.
    apply without_keeps. intros e He Hin.
    apply filter_In in He. destruct He as [He Hdir].
    apply in_map_iff in Hin. destruct Hin as (b & Eb & Hb).
    destruct (HDin b Hb) as [Hi Hf].
    assert (b = e) by (apply (same_name_same_entry es); auto). subst b.
    unfold is_File in Hf. rewrite Hdir in Hf. discriminate. }
  split.
  { intros a b Ha Hb. apply (descending_split _ mtime_of K D); auto.
    rewrite HKD. apply sorted_by_descending. }
  intros b Hb. apply assoc_without. now apply in_map.
Qed.

(** For [keep >= 0] and any destination directory: the call returns
    normally; of [n] regular files [min(keep, n)] remain and the others are
    gone; no deleted file is newer than a kept one; subdirectories, the
    clock and the output are untouched. *)
Theorem rotate_backups_keeps_the_newest :
  forall (dest_dir : string) (keep : Z) (w : world) (es : list (string * node)),
    lookup (Path dest_dir) (root w) = Some (Dir es) ->
    NoDup (map fst es) ->
    0 <= keep ->
    exists w' es' deleted,
      rotate_backups dest_dir keep w = (Ok tt, w')
      /\ lookup (Path dest_dir) (root w') = Some (Dir es')
      /\ clock w' = clock w /\ stdout w' = stdout w
      /\ es' = without deleted es
      /\ Permutation (regular es) (regular es' ++ deleted)
      /\ List.length (regular es') = Nat.min (Z.to_nat keep) (List.length (regular es))
      /\ (forall a b, In a (regular es') -> In b deleted -> mtime_of b <= mtime_of a)
      /\ (forall b, In b deleted -> assoc (fst b) es' = None)
      /\ subdirs es' = subdirs es.
Proof.
  intros dest_dir keep w es Hp N Hk.
  destruct (rotate_backups_general dest_dir keep w es Hp N)
    as (r & Hrot & Hr & P1 & PK & Hsub & Hord & Hgone).
  assert (Hs : slice_start keep (List.length (regular es)) = Z.to_nat keep).
  { unfold slice_start. assert (E : (keep <? 0) = false) by (apply Z.ltb_ge; lia).
    now rewrite E. }
  rewrite Hs in *.
  set (K := firstn (Z.to_nat keep) (newest_first es)) in *.
  set (D := skipn (Z.to_nat keep) (newest_first es)) in *.
  exists (World r (clock w) (stdout w)), (without D es), D.
  repeat split; auto.
  - apply Permutation_trans with (K ++ D); [exact P1|].
    apply Permutation_app_tail. now apply Permutation_sym.
  - rewrite (Permutation_length PK). unfold K. rewrite length_firstn.
    f_equal. apply Permutation_length, sorted_by_perm.
  - intros a b Ha Hb. apply Hord; auto. exact (Permutation_in a PK Ha).
Qed.

Lemma rotate_backups_keeps_the_newest_witness :
  exists w' es' deleted,
    rotate_backups "backups" 7 w_five = (Ok tt, w')
    /\ lookup (Path "backups") (root w') = Some (Dir es')
    /\ clock w' = clock w_five /\ stdout w' = stdout w_five
    /\ es' = without deleted five_archives
    /\ Permutation (regular five_archives) (regular es' ++ deleted)
    /\ List.length (regular es')
       = Nat.min (Z.to_nat 7) (List.length (regular five_archives))
    /\ (forall a b, In a (regular es') -> In b deleted -> mtime_of b <= mtime_of a)
    /\ (forall b, In b deleted -> assoc (fst b) es' = None)
    /\ subdirs es' = subdirs five_archives.
Proof.
  apply (rotate_backups_keeps_the_newest "backups" 7 w_five five_archives).
  - reflexivity.
  - repeat constructor; simpl; intuition discriminate.
  - lia.
Defined.

(** With no more than [keep] regular files in the destination nothing is
    deleted: the call returns the world it was given. *)
Theorem rotate_backups_few_files_no_change :
  forall (dest_dir : string) (keep : Z) (w : world) (es : list (string * node)),
    lookup (Path dest_dir) (root w) = Some (Dir es) ->
    NoDup (map fst es) ->
    Z.of_nat (List.length (regular es)) <= keep ->
    rotate_backups dest_dir keep w = (Ok tt, w).
Proof.
  intros dest_dir keep w es Hp N Hk.
  rewrite (rotate_backups_unlinks dest_dir keep w es Hp N), slice_from_skipn.
  assert (Hlen : List.length (newest_first es) = List.length (regular es))
    by (apply Permutation_length, sorted_by_perm).
  rewrite skipn_all2; [reflexivity|].
  unfold slice_start. assert (E : (keep <? 0) = false) by (apply Z.ltb_ge; lia).
  rewrite E. lia.
Qed.

Lemma rotate_backups_few_files_no_change_witness :
  rotate_backups "backups" 7 w_five = (Ok tt, w_five).
Proof.
  apply (rotate_backups_few_files_no_change "backups" 7 w_five five_archives).
  - reflexivity.
  - repeat constructor; simpl; intuition discriminate.
  - vm_compute. discriminate.
Defined.

(** A negative [keep] is a Python slice from the end: [files[keep:]] holds
    the [-keep] oldest files, so those are deleted and the rest is kept
    (all of them once [-keep] reaches the number of files). *)
Theorem rotate_backups_negative_keep :
  forall (dest_dir : string) (keep : Z) (w : world) (es : list (string * node)),
    lookup (Path dest_dir) (root w) = Some (Dir es) ->
    NoDup (map fst es) ->
    keep < 0 ->
    exists w' es' deleted,
      rotate_backups dest_dir keep w = (Ok tt, w')
      /\ lookup (Path dest_dir) (root w') = Some (Dir es')
      /\ Permutation (regular es) (regular es' ++ deleted)
      /\ List.length deleted
         = Nat.min (Z.to_nat (- keep)) (List.length (regular es))
      /\ (forall a b, In a (regular es') -> In b deleted -> mtime_of b <= mtime_of a)
      /\ (forall b, In b deleted -> assoc (fst b) es' = None).
Proof.
  intros dest_dir keep w es Hp N Hk.
  destruct (rotate_backups_general dest_dir keep w es Hp N)
    as (r & Hrot & Hr & P1 & PK & Hsub & Hord & Hgone).
  set (n := List.length (regular es)) in *.
  assert (Hs : slice_start keep n = Z.to_nat (Z.of_nat n + keep)).
  { unfold slice_start. assert (E : (keep <? 0) = true) by (apply Z.ltb_lt; lia).
    now rewrite E. }
  rewrite Hs in *.
  set (K := firstn (Z.to_nat (Z.of_nat n + keep)) (newest_first es)) in *.
  set (D := skipn (Z.to_nat (Z.of_nat n + keep)) (newest_first es)) in *.
  exists (World r (clock w) (stdout w)), (without D es), D.
  repeat split; auto.
  - apply Permutation_trans with (K ++ D); [exact P1|].
    apply Permutation_app_tail. now apply Permutation_sym.
  - unfold D. rewrite length_skipn.
    assert (Hlen : List.length (newest_first es) = n)
      by (apply Permutation_length, sorted_by_perm).
    rewrite Hlen. lia.
  - intros a b Ha Hb. apply Hord; auto. exact (Permutation_in a PK Ha).
Qed.

Lemma rotate_backups_negative_keep_witness :
  exists w' es' deleted,
    rotate_backups "backups" (-1) w_five = (Ok tt, w')
    /\ lookup (Path "backups") (root w') = Some (Dir es')
    /\ Permutation (regular five_archives) (regular es' ++ deleted)
    /\ List.length deleted
       = Nat.min (Z.to_nat (- (-1))) (List.length (regular five_archives))
    /\ (forall a b, In a (regular es') -> In b deleted -> mtime_of b <= mtime_of a)
    /\ (forall b, In b deleted -> assoc (fst b) es' = None).
Proof.
  apply (rotate_backups_negative_keep "backups" (-1) w_five five_archives).
  - reflexivity.
  - repeat constructor; simpl; intuition discriminate.
  - lia.
Defined.

(** [--keep -1] on the five archives deletes the oldest one only. *)
Example rotate_five_archives_keep_minus_one :
  option_map (fun n => match n with Dir es => map fst es | File _ _ => [] end)
    (lookup (Path "backups") (root (snd (rotate_backups "backups" (-1) w_five))))
  = Some ["data_3.gz"; "old"; "data_5.gz"; "data_2.gz"; "data_4.gz"].
Proof. vm_compute. reflexivity. Qed.

(** ** log_entry (lines 85-93) *)







(** ** One attempt and the loop (lines 118-142) *)

Section Attempts.

Context {codec : TarCodec}.
Variable mk : string -> string -> bool -> M string.
Variable vf : string -> string -> M bool.

(** The loop stops at the first verified backup.  When the first creation
    and verification succeed and the record and the rotation go through,
    the loop ends after one pass with [success] true, and [main] returns
    normally (exit status 0) having written one record, rotated once,
    printed the success line and slept not at all. *)
Theorem first_attempt_verified :
  forall (a : args) (w w1 w2 w3 w4 : world) (p : string),
    restore a = false ->
    0 <= retries a ->
    mk (source a) (dest a) (compress a) w = (Ok p, w1) ->
    vf (source a) p w1 = (Ok true, w2) ->
    log_entry (logfile a) (source a) p "success" 1 EmptyString w2 = (Ok tt, w3) ->
    rotate_backups (dest a) (keep a) w3 = (Ok tt, w4) ->
    let w' := World (root w4) (clock w4)
                    (stdout w4 ++ ["Backup verified successfully: " ^^ p]) in
    retry_loop mk vf (Z.to_nat (retries a + 1)) a 0 false EmptyString w
    = (Ok (1, true, p), w')
    /\ main_with mk vf a w = (Ok tt, w')
    /\ exit_status (fst (main_with mk vf a w)) = 0.
Proof.
  intros a w w1 w2 w3 w4 p Hres Hret Hmk Hvf Hlog Hrot w'.
  assert (Ha : attempt mk vf a 1 EmptyString w = (Ok (true, p), w')).
  { unfold attempt. rewrite Hmk.
    unfold bind at 1. unfold try_except. unfold bind at 1. rewrite Hvf.
    unfold after_verify. unfold bind at 1. rewrite Hlog.
    unfold bind at 1. rewrite Hrot. reflexivity. }
  assert (L : retry_loop mk vf (Z.to_nat (retries a + 1)) a 0 false EmptyString w
              = (Ok (1, true, p), w')).
  { destruct (Z.to_nat (retries a + 1)) as [|f] eqn:Ef; [lia|].
    cbn [retry_loop].
    assert (G : (0 <=? retries a) = true) by (apply Z.leb_le; lia).
    rewrite G. cbn [andb negb]. change (0 + 1) with 1.
    unfold bind at 1. rewrite Ha. cbn [fst snd].
    destruct f; cbn [retry_loop]; rewrite Bool.andb_false_r; reflexivity. }
  assert (E : main_with mk vf a w = (Ok tt, w')).
  { unfold main_with. rewrite Hres. unfold bind at 1. rewrite L. reflexivity. }
  split; [exact L|]. split; [exact E|]. now rewrite E.
Qed.

(** An exception of the creation step is recorded once and the loop goes on:
    the handler appends one failure record carrying the attempt number, the
    previous backup path ([n/a] if there is none) and the text of the
    exception, prints it, sleeps five seconds, and the attempt ends with
    [success] false. *)
Theorem creation_error_recorded :
  forall (a : args) (n : Z) (bp0 : string) (w w1 : world) (e : exn),
    mk (source a) (dest a) (compress a) w = (Raise e, w1) ->
    is_Exception e = true ->
    log_writable (Path (logfile a)) w1 ->
    exists r,
      attempt mk vf a n bp0 w
      = (Ok (false, bp0),
         World r (clock w1 + 5 * 1000000)
               (stdout w1 ++ ["Error during backup: " ^^ str_of_exn e]))
      /\ log_text (Path (logfile a)) (World r (clock w1) (stdout w1))
         = log_base (Path (logfile a)) w1
           ++ log_row (isoformat (utc_of_clock (clock w1))) (source a)
                (if String.eqb bp0 EmptyString then "n/a" else bp0)
                "failure" n (str_of_exn e).
Proof.
  intros a n bp0 w w1 e Hmk He Hw.
  destruct (log_entry_appends (logfile a) (source a)
              (if String.eqb bp0 EmptyString then "n/a" else bp0)
              "failure" n (str_of_exn e) w1 Hw) as (r & Hlog & _ & Hl).
  exists r. split.
  - unfold attempt. rewrite Hmk, He. unfold on_error.
    unfold bind at 1. unfold bind at 1. rewrite Hlog. reflexivity.
  - unfold log_text, log_row. cbn [root]. now rewrite Hl.
Qed.

(** The same for an exception of the verification step, with the path of the
    backup just created in the record. *)
Theorem verification_error_recorded :
  forall (a : args) (n : Z) (bp0 p : string) (w w1 w2 : world) (e : exn),
    mk (source a) (dest a) (compress a) w = (Ok p, w1) ->
    vf (source a) p w1 = (Raise e, w2) ->
    is_Exception e = true ->
    log_writable (Path (logfile a)) w2 ->
    exists r,
      attempt mk vf a n bp0 w
      = (Ok (false, p),
         World r (clock w2 + 5 * 1000000)
               (stdout w2 ++ ["Error during backup: " ^^ str_of_exn e]))
      /\ log_text (Path (logfile a)) (World r (clock w2) (stdout w2))
         = log_base (Path (logfile a)) w2
           ++ log_row (isoformat (utc_of_clock (clock w2))) (source a)
                (if String.eqb p EmptyString then "n/a" else p)
                "failure" n (str_of_exn e).
Proof.
  intros a n bp0 p w w1 w2 e Hmk Hvf He Hw.
  destruct (log_entry_appends (logfile a) (source a)
              (if String.eqb p EmptyString then "n/a" else p)
              "failure" n (str_of_exn e) w2 Hw) as (r & Hlog & _ & Hl).
  exists r. split.
  - unfold attempt. rewrite Hmk.
    unfold bind at 1. unfold try_except. unfold bind at 1. rewrite Hvf, He.
    unfold on_error. unfold bind at 1. rewrite Hlog. reflexivity.
  - unfold log_text, log_row. cbn [root]. now rewrite Hl.
Qed.

(** [success] is set after the rotation (line 129).  If the backup verifies
    but the destination is not a directory when [rotate_backups] lists it,
    the exception lands in the handler: the attempt has a success record
    and a failure record with the same number, [success] stays false and
    the loop will try again. *)
Theorem rotation_error_fails_the_attempt :
  forall (a : args) (n : Z) (bp0 p : string) (w w1 w2 : world),
    mk (source a) (dest a) (compress a) w = (Ok p, w1) ->
    vf (source a) p w1 = (Ok true, w2) ->
    log_writable (Path (logfile a)) w2 ->
    (forall es,
       lookup (Path (dest a))
         (root (snd (log_entry (logfile a) (source a) p "success" n EmptyString w2)))
       <> Some (Dir es)) ->
    exists w' c,
      attempt mk vf a n bp0 w = (Ok (false, p), w')
      /\ (c = ENOENT \/ c = ENOTDIR)
      /\ log_text (Path (logfile a)) w'
         = log_base (Path (logfile a)) w2
           ++ log_row (isoformat (utc_of_clock (clock w2))) (source a) p "success" n
                EmptyString
           ++ log_row (isoformat (utc_of_clock (clock w2))) (source a)
                (if String.eqb p EmptyString then "n/a" else p)
                "failure" n (str_of_exn (OSError c (str (Path (dest a))))).
Proof.
  intros a n bp0 p w w1 w2 Hmk Hvf Hw Hdest.
  destruct (log_entry_appends (logfile a) (source a) p "success" n EmptyString w2 Hw)
    as (r & Hlog & Hw3 & Hl3).
  rewrite Hlog in Hdest. cbn [snd root] in Hdest.
  set (w3 := World r (clock w2) (stdout w2)) in *.
  assert (Hrot : exists c, rotate_backups (dest a) (keep a) w3
                           = (Raise (OSError c (str (Path (dest a)))), w3)
                           /\ (c = ENOENT \/ c = ENOTDIR)).
  { unfold rotate_backups, bind at 1. unfold iterdir. cbn [root w3].
    destruct (lookup (Path (dest a)) r) as [[m d|es]|] eqn:E.
    - exists ENOTDIR. auto.
    - exfalso. now apply (Hdest es).
    - exists ENOENT. auto. }
  destruct Hrot as (c & Hrot & Hc).
  destruct (log_entry_appends (logfile a) (source a)
              (if String.eqb p EmptyString then "n/a" else p)
              "failure" n (str_of_exn (OSError c (str (Path (dest a))))) w3 Hw3)
    as (r' & Hlog' & _ & Hl').
  eexists. exists c. split; [|split; [exact Hc|]].
  - unfold attempt. rewrite Hmk.
    unfold bind at 1. unfold try_except. unfold bind at 1. rewrite Hvf.
    unfold after_verify. unfold bind at 1. rewrite Hlog.
    unfold bind at 1. rewrite Hrot. cbn [is_Exception].
    unfold on_error. unfold bind at 1. rewrite Hlog'. reflexivity.
  - unfold log_text, log_row. cbn [root]. rewrite Hl'.
    unfold log_base at 1. cbn [root w3]. rewrite Hl3.
    now rewrite <- app_assoc.
Qed.

End Attempts.

Lemma first_attempt_verified_witness :
  retry_loop (mk_const "backups/data.csv_1") vf_ok (Z.to_nat (retries a_default + 1))
    a_default 0 false EmptyString w_dest
  = (Ok (1, true, "backups/data.csv_1"),
     snd (main_with (mk_const "backups/data.csv_1") vf_ok a_default w_dest))
  /\ fst (main_with (mk_const "backups/data.csv_1") vf_ok a_default w_dest) = Ok tt
  /\ exit_status (fst (main_with (mk_const "backups/data.csv_1") vf_ok a_default w_dest)) = 0.
Proof.
  edestruct (first_attempt_verified (mk_const "backups/data.csv_1") vf_ok a_default
               w_dest w_dest w_dest) as (L & E & X).
  - reflexivity.
  - vm_compute. discriminate.
  - reflexivity.
  - reflexivity.
  - vm_compute. reflexivity.
  - vm_compute. reflexivity.
  - rewrite L, E. repeat split.
Defined.

Lemma creation_error_recorded_witness :
  exists r,
    attempt mk_broken vf_ok a_default 1 EmptyString w_logs
    = (Ok (false, EmptyString),
       World r (clock w_logs + 5 * 1000000)
             (stdout w_logs ++ ["Error during backup: " ^^ str_of_exn (TarError "disk full")]))
    /\ log_text (Path (logfile a_default)) (World r (clock w_logs) (stdout w_logs))
       = log_base (Path (logfile a_default)) w_logs
         ++ log_row (isoformat (utc_of_clock (clock w_logs))) (source a_default)
              (if String.eqb EmptyString EmptyString then "n/a" else EmptyString)
              "failure" 1 (str_of_exn (TarError "disk full")).
Proof.
  apply (creation_error_recorded mk_broken vf_ok a_default 1 EmptyString w_logs w_logs
           (TarError "disk full")).
  - reflexivity.
  - reflexivity.
  - exact log_writable_w_logs.
Defined.

Lemma verification_error_recorded_witness :
  exists r,
    attempt (mk_const "backups/missing") verify_backup a_default 1 EmptyString w_logs
    = (Ok (false, "backups/missing"),
       World r (clock w_logs + 5 * 1000000)
             (stdout w_logs
              ++ ["Error during backup: " ^^ str_of_exn (OSError ENOENT "backups/missing")]))
    /\ log_text (Path (logfile a_default)) (World r (clock w_logs) (stdout w_logs))
       = log_base (Path (logfile a_default)) w_logs
         ++ log_row (isoformat (utc_of_clock (clock w_logs))) (source a_default)
              (if String.eqb "backups/missing" EmptyString then "n/a" else "backups/missing")
              "failure" 1 (str_of_exn (OSError ENOENT "backups/missing")).
Proof.
  apply (verification_error_recorded (mk_const "backups/missing") verify_backup a_default 1
           EmptyString "backups/missing" w_logs w_logs w_logs
           (OSError ENOENT "backups/missing")).
  - reflexivity.
  - vm_compute. reflexivity.
  - reflexivity.
  - exact log_writable_w_logs.
Defined.

Lemma rotation_error_fails_the_attempt_witness :
  exists w' c,
    attempt (mk_const "backups/data.csv_1") vf_ok a_default 1 EmptyString w_logs
    = (Ok (false, "backups/data.csv_1"), w')
    /\ (c = ENOENT \/ c = ENOTDIR)
    /\ log_text (Path (logfile a_default)) w'
       = log_base (Path (logfile a_default)) w_logs
         ++ log_row (isoformat (utc_of_clock (clock w_logs))) (source a_default)
              "backups/data.csv_1" "success" 1 EmptyString
         ++ log_row (isoformat (utc_of_clock (clock w_logs))) (source a_default)
              (if String.eqb "backups/data.csv_1" EmptyString then "n/a"
               else "backups/data.csv_1")
              "failure" 1 (str_of_exn (OSError c (str (Path (dest a_default))))).
Proof.
  apply (rotation_error_fails_the_attempt (mk_const "backups/data.csv_1") vf_ok a_default 1
           EmptyString "backups/data.csv_1" w_logs w_logs w_logs).
  - reflexivity.
  - reflexivity.
  - exact log_writable_w_logs.
  - intros es. vm_compute. discriminate.
Defined.

(** ** The retry budget for any [retries] *)

Section Budget.

Context {codec : TarCodec}.
Variable mk : string -> string -> bool -> M string.
Variable vf : string -> string -> M bool.
Variable a : args.

Let lf : path := Path (logfile a).

Hypothesis mk_ok :
  forall w0, log_writable lf w0 ->
    exists p w1, mk (source a) (dest a) (compress a) w0 = (Ok p, w1)
                 /\ log_writable lf w1
                 /\ lookup lf (root w1) = lookup lf (root w0).
Hypothesis vf_false :
  forall p w0, log_writable lf w0 ->
    exists w1, vf (source a) p w0 = (Ok false, w1)
               /\ log_writable lf w1
               /\ lookup lf (root w1) = lookup lf (root w0).

Lemma all_attempts_mismatch :
  forall (fuel : nat) (attempts : Z) (bp : string) (w : world),
    Z.of_nat fuel = retries a + 1 - attempts ->
    log_writable lf w ->
    exists w' tps p,
      retry_loop mk vf fuel a attempts false bp w = (Ok (retries a + 1, false, p), w')
      /\ List.length tps = fuel
      /\ log_writable lf w'
      /\ (fuel = O -> log_text lf w' = log_text lf w)
      /\ (fuel <> O -> log_text lf w' = log_base lf w ++ mismatch_rows a (attempts + 1) tps).
Proof.
  induction fuel as [|f IH]; intros attempts bp w Hf Hw.
  - exists w, [], bp. cbn [retry_loop].
    assert (G : (attempts <=? retries a) = false) by (apply Z.leb_gt; lia).
    rewrite G. cbn [andb]. unfold ret.
    assert (E : attempts = retries a + 1) by lia. rewrite E.
    repeat split; auto. intros F. contradiction.
  - cbn [retry_loop].
    assert (G : (attempts <=? retries a) = true) by (apply Z.leb_le; lia).
    rewrite G. cbn [andb negb].
    destruct (attempt_mismatch mk vf a mk_ok vf_false (attempts + 1) bp w Hw)
      as (p1 & t1 & w1 & A1 & Hw1 & T1 & B1).
    destruct (IH (attempts + 1) p1 w1) as (w' & tps & p & L & Hlen & Hw' & H0 & Hn);
      [lia|exact Hw1|].
    exists w', ((t1, p1) :: tps), p.
    split.
    { unfold bind at 1. rewrite A1. cbn [fst snd]. exact L. }
    split; [simpl; now rewrite Hlen|]. split; [exact Hw'|].
    split; [intros F; discriminate|]. intros _.
    cbn [mismatch_rows].
    destruct f as [|f'].
    + rewrite (H0 eq_refl). fold lf in T1. rewrite T1. destruct tps; [|discriminate].
      cbn [mismatch_rows]. now rewrite app_nil_r.
    + rewrite Hn by discriminate. fold lf in B1, T1. rewrite B1, T1.
      now rewrite <- app_assoc.
Qed.

(** With any [retries >= 0], when every creation succeeds and every
    verification reports a mismatch (the log being writable), the loop makes
    exactly [retries + 1] passes: it ends with [attempts = retries + 1], the
    log has gained [retries + 1] mismatch records numbered from 1 without a
    gap, and [main] ends in [SystemExit(1)]. *)
Theorem retries_plus_one_attempts :
  forall w : world,
    restore a = false ->
    0 <= retries a ->
    log_writable lf w ->
    exists w' tps p,
      retry_loop mk vf (Z.to_nat (retries a + 1)) a 0 false EmptyString w
      = (Ok (retries a + 1, false, p), w')
      /\ Z.of_nat (List.length tps) = retries a + 1
      /\ log_text lf w' = log_base lf w ++ mismatch_rows a 1 tps
      /\ main_with mk vf a w
         = (Raise (SystemExit 1),
            World (root w') (clock w') (stdout w' ++ ["Backup failed after retries."]))
      /\ exit_status (fst (main_with mk vf a w)) = 1.
Proof.
  intros w Hres Hret Hw.
  destruct (all_attempts_mismatch (Z.to_nat (retries a + 1)) 0 EmptyString w)
    as (w' & tps & p & L & Hlen & _ & _ & Hn); [lia|exact Hw|].
  assert (E : main_with mk vf a w
              = (Raise (SystemExit 1),
                 World (root w') (clock w') (stdout w' ++ ["Backup failed after retries."]))).
  { unfold main_with. rewrite Hres. unfold bind at 1. rewrite L. reflexivity. }
  exists w', tps, p.
  split; [exact L|]. split; [lia|]. split.
  - apply Hn. lia.
  - split; [exact E|now rewrite E].
Qed.

End Budget.

Lemma retries_plus_one_attempts_witness :
  exists w' tps p,
    retry_loop (mk_const "backups/data.csv_1") vf_mismatch
      (Z.to_nat (retries a_default + 1)) a_default 0 false EmptyString w_logs
    = (Ok (retries a_default + 1, false, p), w')
    /\ Z.of_nat (List.length tps) = retries a_default + 1
    /\ log_text (Path (logfile a_default)) w'
       = log_base (Path (logfile a_default)) w_logs ++ mismatch_rows a_default 1 tps
    /\ main_with (mk_const "backups/data.csv_1") vf_mismatch a_default w_logs
       = (Raise (SystemExit 1),
          World (root w') (clock w') (stdout w' ++ ["Backup failed after retries."]))
    /\ exit_status
         (fst (main_with (mk_const "backups/data.csv_1") vf_mismatch a_default w_logs)) = 1.
Proof.
  apply (retries_plus_one_attempts (mk_const "backups/data.csv_1") vf_mismatch a_default).
  - intros w0 H. exists "backups/data.csv_1".
    apply (ret_keeps_log string _ _ w0 H).
  - intros p w0 H. apply (ret_keeps_log bool false _ w0 H).
  - reflexivity.
  - vm_compute. discriminate.
  - exact log_writable_w_logs.
Defined.

(** ** The pipeline as it is *)

Lemma log_entry_outcome :
  forall lfs src bp st n msg w,
    (exists w', log_entry lfs src bp st n msg w = (Ok tt, w'))
    \/ (exists c f, log_entry lfs src bp st n msg w = (Raise (OSError c f), w)).
Proof.
  intros lfs src bp st n msg w.
  unfold log_entry, bind, utcnow, path_exists, append_file, store_file, ret.
  destruct (lookup (Path lfs) (root w)) as [[m d|es]|]; cbv beta iota;
    repeat match goal with
           | |- context [match put ?p ?v ?n with _ => _ end] => destruct (put p v n)
           end;
    first [left; eexists; reflexivity | right; eexists; eexists; reflexivity].
Qed.

Section AsItIs.

Context {codec : TarCodec}.

Lemma attempt_as_it_is :
  forall a n bp w,
    (exists w', attempt make_backup verify_backup a n bp w = (Ok (false, bp), w'))
    \/ (exists c f w',
          attempt make_backup verify_backup a n bp w = (Raise (OSError c f), w')).
Proof.
  intros a n bp w. unfold attempt. rewrite make_backup_stops. cbn [is_Exception].
  set (bp' := if String.eqb bp EmptyString then "n/a" else bp).
  set (msg := str_of_exn (NameError "Path")).
  assert (H : (success <- on_error a n bp (NameError "Path") ;; ret (success, bp)) w
              = match log_entry (logfile a) (source a) bp' "failure" n msg w with
                | (Ok _, w1) =>
                    (Ok (false, bp),
                     World (root w1) (clock w1 + 5 * 1000000)
                           (stdout w1 ++ ["Error during backup: " ^^ msg]))
                | (Raise e, w1) => (Raise e, w1)
                | (OutOfFuel, w1) => (OutOfFuel, w1)
                end).
  { unfold on_error, bind. fold bp' msg.
    destruct (log_entry (logfile a) (source a) bp' "failure" n msg w) as [[u|e|] w1];
      reflexivity. }
  rewrite H.
  destruct (log_entry_outcome (logfile a) (source a) bp' "failure" n msg w)
    as [(w' & E)|(c & f & E)]; rewrite E.
  - left. eexists. reflexivity.
  - right. exists c, f, w. reflexivity.
Qed.

Lemma retry_loop_step :
  forall mk vf (f : nat) a attempts bp w,
    retry_loop mk vf (S f) a attempts false bp w
    = if attempts <=? retries a then
        match attempt mk vf a (attempts + 1) bp w with
        | (Ok r, w1) => retry_loop mk vf f a (attempts + 1) (fst r) (snd r) w1
        | (Raise e, w1) => (Raise e, w1)
        | (OutOfFuel, w1) => (OutOfFuel, w1)
        end
      else (Ok (attempts, false, bp), w).
Proof.
  intros mk vf f a attempts bp w. cbn [retry_loop].
  destruct (attempts <=? retries a); cbn [andb negb]; [|reflexivity].
  unfold bind at 1.
  destruct (attempt mk vf a (attempts + 1) bp w) as [[r|e|] w1]; reflexivity.
Qed.

Lemma retry_loop_as_it_is :
  forall (fuel : nat) a attempts bp w,
    (Z.to_nat (retries a + 1 - attempts) <= fuel)%nat ->
    (exists n p w',
       retry_loop make_backup verify_backup fuel a attempts false bp w
       = (Ok (n, false, p), w'))
    \/ (exists c f w',
          retry_loop make_backup verify_backup fuel a attempts false bp w
          = (Raise (OSError c f), w')).
Proof.
  induction fuel as [|f IH]; intros a attempts bp w Hf.
  - cbn [retry_loop].
    assert (G : (attempts <=? retries a) = false) by (apply Z.leb_gt; lia).
    rewrite G. left. exists attempts, bp, w. reflexivity.
  - rewrite retry_loop_step.
    destruct (attempts <=? retries a) eqn:G.
    + apply Z.leb_le in G.
      destruct (attempt_as_it_is a (attempts + 1) bp w) as [(w' & E)|(c & e & w' & E)];
        rewrite E.
      * cbn [fst snd]. apply IH. lia.
      * right. exists c, e, w'. reflexivity.
    + left. exists attempts, bp, w. reflexivity.
Qed.

(** In backup mode the program cannot succeed.  Whatever the arguments and
    the world, every attempt ends in the [NameError] of line 22, so [main]
    never returns normally: it ends in [SystemExit(1)] once the attempts are
    spent, or in the [OSError] of a failed log write; the exit status is 1
    either way. *)
Theorem backup_mode_never_succeeds :
  forall (a : args) (w : world),
    restore a = false ->
    exists e,
      fst (main a w) = Raise e
      /\ (e = SystemExit 1 \/ exists c f, e = OSError c f)
      /\ exit_status (fst (main a w)) = 1.
Proof.
  intros a w Hres.
  assert (E : exists e, fst (main a w) = Raise e
                        /\ (e = SystemExit 1 \/ exists c f, e = OSError c f)).
  { unfold main, main_with. rewrite Hres. unfold bind at 1.
    destruct (retry_loop_as_it_is (Z.to_nat (retries a + 1)) a 0 EmptyString w)
      as [(n & p & w' & L)|(c & f & w' & L)]; [lia| |]; rewrite L.
    - exists (SystemExit 1). split; [reflexivity|now left].
    - exists (OSError c f). split; [reflexivity|]. right. eauto. }
  destruct E as (e & E & He). exists e. split; [exact E|]. split; [exact He|].
  rewrite E. destruct He as [->|(c & f & ->)]; reflexivity.
Qed.

End AsItIs.

Lemma backup_mode_never_succeeds_witness :
  exists e,
    fst (main a_default w_dest) = Raise e
    /\ (e = SystemExit 1 \/ exists c f, e = OSError c f)
    /\ exit_status (fst (main a_default w_dest)) = 1.
Proof.
  apply (backup_mode_never_succeeds a_default w_dest). reflexivity.
Defined.

(** ** The restore branch of main (lines 108-116) *)

Lemma lookup_below_file :
  forall q m d, q <> [] -> lookup q (File m d) = None.
Proof. intros [|x q] m d H; [contradiction|reflexivity]. Qed.

Lemma lookup_below_empty :
  forall q, q <> [] -> lookup q (Dir []) = None.
Proof. intros [|x q] H; [contradiction|reflexivity]. Qed.

(** [makedirs] on a path with no regular file on the way: it returns
    normally, the path is a directory afterwards, and either nothing had to
    be made or the directory is new and empty. *)
Lemma makedirs_from_creates :
  forall (rest pre : path) (w : world),
    (exists es, lookup pre (root w) = Some (Dir es)) ->
    (forall k m d, lookup (pre ++ firstn k rest) (root w) <> Some (File m d)) ->
    exists r,
      makedirs_from pre rest w = (Ok tt, World r (clock w) (stdout w))
      /\ (exists es', lookup (pre ++ rest) r = Some (Dir es'))
      /\ (r = root w \/ lookup (pre ++ rest) r = Some (Dir [])).
Proof.
  induction rest as [|x q IH]; intros pre w [es Hpre] Hnf.
  - exists (root w). cbn [makedirs_from]. rewrite app_nil_r. destruct w.
    split; [reflexivity|]. split; [eauto|now left].
  - cbn [makedirs_from].
    assert (Hassoc : (pre ++ [x]) ++ q = pre ++ x :: q) by now rewrite <- app_assoc.
    destruct (lookup (pre ++ [x]) (root w)) as [[m d|es1]|] eqn:E.
    + exfalso. apply (Hnf 1%nat m d). exact E.
    + destruct (IH (pre ++ [x]) w) as (r & Hm & Hd & Hfresh).
      * eauto.
      * intros k m d. rewrite <- app_assoc. exact (Hnf (S k) m d).
      * exists r. rewrite <- Hassoc. auto.
    + destruct (put_snoc pre x (Some (Dir [])) (root w) es Hpre) as (n1 & Hput & Hl1).
      assert (Hnew : lookup (pre ++ [x]) n1 = Some (Dir []))
        by exact (lookup_put_same _ _ _ _ Hput).
      destruct (IH (pre ++ [x]) (set_root n1 w)) as (r & Hm & Hd & Hfresh).
      * exists []. exact Hnew.
      * intros k m d. cbn [set_root root]. rewrite lookup_app, Hnew.
        destruct (firstn k q) eqn:Ek; [discriminate|].
        rewrite lookup_below_empty; discriminate.
      * exists r. rewrite <- Hassoc. split.
        { unfold bind, mkdir. rewrite E, Hput. exact Hm. }
        split; [exact Hd|]. right.
        destruct Hfresh as [->|Hf]; [|exact Hf].
        cbn [set_root root] in *. destruct q as [|y q'].
        { now rewrite app_nil_r. }
        { destruct Hd as [es' Hd]. rewrite lookup_app, Hnew in Hd. discriminate. }
Qed.

Section Restore.

Context {codec : TarCodec}.
Variable mk : string -> string -> bool -> M string.
Variable vf : string -> string -> M bool.

(** Without [--backup] or without [--target] (absent or empty) the restore
    prints its usage line and returns: nothing is read or written, and the
    exit status is 0 although nothing was restored. *)
Theorem restore_without_arguments :
  forall (a : args) (w : world),
    restore a = true ->
    falsy (backup a) = true \/ falsy (target a) = true ->
    main_with mk vf a w
    = (Ok tt, World (root w) (clock w)
                    (stdout w ++ ["For restore: provide --backup and --target"]))
    /\ exit_status (fst (main_with mk vf a w)) = 0.
Proof.
  intros a w Hr Hf.
  assert (E : main_with mk vf a w
              = (Ok tt, World (root w) (clock w)
                              (stdout w ++ ["For restore: provide --backup and --target"]))).
  { unfold main_with. rewrite Hr.
    assert (G : falsy (backup a) || falsy (target a) = true)
      by (apply Bool.orb_true_iff; exact Hf).
    now rewrite G. }
  split; [exact E|now rewrite E].
Qed.

(** A backup that is a regular file but not an archive is refused: the
    restore raises the error of [tarfile.open], uncaught, before the target
    is touched; the world is as it was. *)
Theorem restore_refuses_non_archive :
  forall (a : args) (w : world) (b t : string) (m : Z) (d : bytes),
    restore a = true ->
    backup a = Some b -> b <> EmptyString ->
    target a = Some t -> t <> EmptyString ->
    lookup (Path b) (root w) = Some (File m d) ->
    tar_read d = None ->
    main_with mk vf a w = (Raise (TarError "file could not be opened successfully"), w)
    /\ exit_status (fst (main_with mk vf a w)) = 1.
Proof.
  intros a w b t m d Hr Hb Hbn Ht Htn Hl Htar.
  assert (E : main_with mk vf a w
              = (Raise (TarError "file could not be opened successfully"), w)).
  { unfold main_with. rewrite Hr, Hb, Ht. cbn [falsy or_default].
    apply String.eqb_neq in Hbn, Htn. rewrite Hbn, Htn. cbn [orb].
    unfold bind at 1. unfold tarfile_open, bind at 1. unfold read_file.
    now rewrite Hl, Htar. }
  split; [exact E|now rewrite E].
Qed.

(** Restoring a single-file archive.  When the backup is an archive of one
    file member named [x], no regular file lies on the way to the target,
    and the target holds no directory named [x], the restore makes the
    target directory if need be, writes [target/x] with the member's bytes
    and modification time, prints its completion line and returns (exit
    status 0); the clock does not move. *)
Theorem restore_single_file :
  forall (a : args) (w : world) (b t x : string) (bm m : Z) (bd d : bytes)
         (es0 : list (string * node)),
    restore a = true ->
    backup a = Some b -> b <> EmptyString ->
    target a = Some t -> t <> EmptyString ->
    root w = Dir es0 ->
    lookup (Path b) (root w) = Some (File bm bd) ->
    tar_read bd = Some [MFile [x] m d] ->
    (forall k m' d', lookup (firstn k (Path t)) (root w) <> Some (File m' d')) ->
    (forall es, lookup (Path t ++ [x]) (root w) <> Some (Dir es)) ->
    exists r,
      main_with mk vf a w
      = (Ok tt, World r (clock w) (stdout w ++ ["Restore completed."]))
      /\ lookup (Path t ++ [x]) r = Some (File m d)
      /\ exit_status (fst (main_with mk vf a w)) = 0.
Proof.
  intros a w b t x bm m bd d es0 Hr Hb Hbn Ht Htn Hroot Hl Htar Hway Hnd.
  destruct (makedirs_from_creates (Path t) [] w) as (r1 & Hmk & [es1 Hd1] & Hfresh).
  { exists es0. cbn [lookup]. now rewrite Hroot. }
  { intros k m' d'. cbn [app]. apply Hway. }
  cbn [app] in Hd1, Hfresh.
  set (w1 := World r1 (clock w) (stdout w)) in *.
  assert (Hnd1 : forall es, lookup (Path t ++ [x]) r1 <> Some (Dir es)).
  { destruct Hfresh as [->|Hf]; [exact Hnd|].
    intros es. rewrite (lookup_snoc _ x r1 [] Hf). discriminate. }
  destruct (put_snoc (Path t) x (Some (File m d)) r1 es1 Hd1) as (r2 & Hput & _).
  assert (Hstore : store_file (Path t ++ [x]) m d w1
                   = (Ok tt, World r2 (clock w) (stdout w))).
  { unfold store_file. cbn [root w1]. rewrite Hput.
    destruct (lookup (Path t ++ [x]) r1) as [[m' d'|es]|] eqn:E; try reflexivity.
    exfalso. now apply (Hnd1 es). }
  assert (Hparent : parent (Path t ++ [x]) = Path t).
  { unfold parent. apply removelast_last. }
  assert (E : main_with mk vf a w
              = (Ok tt, World r2 (clock w) (stdout w ++ ["Restore completed."]))).
  { unfold main_with. rewrite Hr, Hb, Ht. cbn [falsy or_default].
    apply String.eqb_neq in Hbn, Htn. rewrite Hbn, Htn. cbn [orb].
    unfold bind at 1. unfold tarfile_open, bind at 1. unfold read_file.
    rewrite Hl, Htar. unfold ret at 1.
    unfold bind at 1. unfold extractall. cbn [for_each extract].
    unfold bind at 1. unfold bind at 1. rewrite Hparent. unfold makedirs.
    rewrite Hmk. fold w1. rewrite Hstore. reflexivity. }
  exists r2. split; [exact E|]. split.
  - exact (lookup_put_same _ _ _ _ Hput).
  - now rewrite E.
Qed.

End Restore.

Lemma restore_without_arguments_witness :
  main (restore_args (Some "backups/data.csv_1.gz") None) w_archive
  = (Ok tt, World (root w_archive) (clock w_archive)
                  (stdout w_archive ++ ["For restore: provide --backup and --target"]))
  /\ exit_status (fst (main (restore_args (Some "backups/data.csv_1.gz") None) w_archive))
     = 0.
Proof.
  apply (restore_without_arguments make_backup verify_backup
           (restore_args (Some "backups/data.csv_1.gz") None) w_archive).
  - reflexivity.
  - right. reflexivity.
Defined.

Lemma restore_refuses_non_archive_witness :
  main (restore_args (Some "data.csv") (Some "out")) w_logs
  = (Raise (TarError "file could not be opened successfully"), w_logs)
  /\ exit_status (fst (main (restore_args (Some "data.csv") (Some "out")) w_logs)) = 1.
Proof.
  apply (restore_refuses_non_archive make_backup verify_backup
           (restore_args (Some "data.csv") (Some "out")) w_logs
           "data.csv" "out" 100 (encode "a,b")).
  - reflexivity.
  - reflexivity.
  - discriminate.
  - reflexivity.
  - discriminate.
  - reflexivity.
  - reflexivity.
Defined.

Lemma restore_single_file_witness :
  exists r,
    main (restore_args (Some "backups/data.csv_1.gz") (Some "./restore_test")) w_archive
    = (Ok tt, World r (clock w_archive) (stdout w_archive ++ ["Restore completed."]))
    /\ lookup (Path "./restore_test" ++ ["data.csv"]) r = Some (File 100 (encode "a,b"))
    /\ exit_status
         (fst (main (restore_args (Some "backups/data.csv_1.gz") (Some "./restore_test"))
                 w_archive)) = 0.
Proof.
  eapply (restore_single_file make_backup verify_backup
            (restore_args (Some "backups/data.csv_1.gz") (Some "./restore_test")) w_archive
            "backups/data.csv_1.gz" "./restore_test" "data.csv" 200 100).
  - reflexivity.
  - reflexivity.
  - discriminate.
  - reflexivity.
  - discriminate.
  - reflexivity.
  - reflexivity.
  - vm_compute. reflexivity.
  - intros [|[|k]] m' d'; vm_compute; discriminate.
  - intros es. vm_compute. discriminate.
Defined.

(** ** The order of paths *)

Lemma string_compare_trans :
  forall a b c, String.compare a b = Lt -> String.compare b c = Lt -> String.compare a c = Lt.
Proof.
  intros a b c H1 H2.
  apply String_as_OT.cmp_lt. apply String_as_OT.cmp_lt in H1, H2.
  exact (String_as_OT.lt_trans _ _ _ H1 H2).
Qed.

Lemma path_ltb_cmp :
  forall p q, path_ltb p q = match path_cmp p q with Lt => true | _ => false end.
Proof.
  induction p as [|x p IH]; intros [|y q]; simpl; auto.
  destruct (String.compare x y); auto.
Qed.

Lemma path_cmp_eq : forall p q, path_cmp p q = Eq -> p = q.
Proof.
  induction p as [|x p IH]; intros [|y q] H; simpl in H; try discriminate; auto.
  destruct (String.compare x y) eqn:E; try discriminate.
  apply String.compare_eq_iff in E. subst. f_equal. now apply IH.
Qed.

Lemma path_cmp_refl : forall p, path_cmp p p = Eq.
Proof.
  induction p as [|x p IH]; simpl; auto. now rewrite string_compare_refl.
Qed.

Lemma path_cmp_antisym : forall p q, path_cmp p q = CompOpp (path_cmp q p).
Proof.
  induction p as [|x p IH]; intros [|y q]; simpl; auto.
  rewrite (String.compare_antisym x y).
  destruct (String.compare y x); simpl; auto.
Qed.

Lemma path_cmp_trans :
  forall p q r, path_cmp p q = Lt -> path_cmp q r = Lt -> path_cmp p r = Lt.
Proof.
  induction p as [|x p IH]; intros [|y q] [|z r] H1 H2; simpl in *;
    try discriminate; auto.
  destruct (String.compare x y) eqn:Exy; try discriminate.
  - apply String.compare_eq_iff in Exy. subst y.
    destruct (String.compare x z); try discriminate; auto.
    now apply (IH q r).
  - destruct (String.compare y z) eqn:Eyz; try discriminate.
    + apply String.compare_eq_iff in Eyz. subst z. now rewrite Exy.
    + now rewrite (string_compare_trans x y z Exy Eyz).
Qed.

Lemma path_ltb_asym : forall p q, path_ltb p q = true -> path_ltb q p = false.
Proof.
  intros p q. rewrite !path_ltb_cmp, (path_cmp_antisym q p).
  destruct (path_cmp p q); simpl; auto; discriminate.
Qed.

Lemma path_ltb_total : forall p q, path_ltb p q = false -> path_ltb q p = false -> p = q.
Proof.
  intros p q. rewrite !path_ltb_cmp, (path_cmp_antisym q p).
  destruct (path_cmp p q) eqn:E; simpl; try discriminate.
  intros _ _. now apply path_cmp_eq.
Qed.

Lemma path_leb_trans :
  forall p q r, path_ltb q p = false -> path_ltb r q = false -> path_ltb r p = false.
Proof.
  intros p q r. rewrite !path_ltb_cmp.
  destruct (path_cmp q p) eqn:E1; try discriminate; intros _.
  - apply path_cmp_eq in E1. now subst.
  - destruct (path_cmp r q) eqn:E2; try discriminate; intros _.
    + apply path_cmp_eq in E2. subst. now rewrite E1.
    + assert (H1 : path_cmp p q = Lt)
        by (rewrite path_cmp_antisym, E1; reflexivity).
      assert (H2 : path_cmp q r = Lt)
        by (rewrite path_cmp_antisym, E2; reflexivity).
      assert (H3 := path_cmp_trans p q r H1 H2).
      rewrite path_cmp_antisym, H3. reflexivity.
Qed.

(** Sorting by paths does not depend on the order of the input. *)
Section SortedPaths.

Let le (p q : path) : Prop := path_ltb q p = false.

Lemma insert_by_path_sorted :
  forall x l, StronglySorted le l -> StronglySorted le (insert_by path_ltb x l).
Proof.
  intros x l. induction l as [|y r IH]; intros S; simpl.
  - constructor; constructor.
  - apply StronglySorted_inv in S. destruct S as [Sr Fy].
    destruct (path_ltb y x) eqn:E.
    + constructor; [now apply IH|].
      apply (Permutation_Forall (Permutation_sym (insert_by_perm _ path_ltb x r))).
      constructor; [|assumption]. unfold le. now apply path_ltb_asym.
    + constructor; [constructor; assumption|].
      constructor; [exact E|].
      apply Forall_impl with (P := le y); [|assumption].
      unfold le. intros z Hz. now apply (path_leb_trans x y z).
Qed.

Lemma sorted_by_path_sorted : forall l, StronglySorted le (sorted_by path_ltb l).
Proof.
  induction l as [|x r IH]; simpl; [constructor|now apply insert_by_path_sorted].
Qed.

Lemma sorted_paths_unique :
  forall l l',
    StronglySorted le l -> StronglySorted le l' -> Permutation l l' -> l = l'.
Proof.
  induction l as [|x t IH]; intros l' S S' P.
  - apply Permutation_nil in P. now subst.
  - destruct l' as [|y t']; [apply Permutation_sym, Permutation_nil in P; discriminate|].
    apply StronglySorted_inv in S. destruct S as [St Fx].
    apply StronglySorted_inv in S'. destruct S' as [St' Fy].
    rewrite Forall_forall in Fx, Fy.
    assert (Hxy : x = y).
    { assert (Hx : In x (y :: t')) by (apply (Permutation_in x P); now left).
      assert (Hy : In y (x :: t))
        by (apply (Permutation_in y (Permutation_sym P)); now left).
      destruct Hx as [->|Hx]; auto. destruct Hy as [->|Hy]; auto.
      apply path_ltb_total.
      - exact (Fy x Hx).
      - exact (Fx y Hy). }
    subst y. f_equal. apply IH; auto.
    now apply Permutation_cons_inv with (a := x).
Qed.

Lemma sorted_by_path_perm :
  forall l l', Permutation l l' -> sorted_by path_ltb l = sorted_by path_ltb l'.
Proof.
  intros l l' P. apply sorted_paths_unique; try apply sorted_by_path_sorted.
  apply Permutation_trans with l; [apply sorted_by_perm|].
  apply Permutation_trans with l'; [exact P|].
  apply Permutation_sym, sorted_by_perm.
Qed.

End SortedPaths.

(** ** agg_checksum (lines 66-71): what it depends on *)

Lemma files_of_perm :
  forall n n',
    Permutation (rglob_star n) (rglob_star n') ->
    (forall q, In q (rglob_star n) -> file_bytes n q = file_bytes n' q) ->
    Permutation (files_of n) (files_of n').
Proof.
  intros n n' P H. unfold files_of.
  apply Permutation_trans
    with (filter (fun q => match lookup q n' with Some c => is_File c | None => false end)
                 (rglob_star n)).
  - assert (E : filter (fun q => match lookup q n with Some c => is_File c | None => false end)
                       (rglob_star n)
                = filter (fun q => match lookup q n' with
                                   | Some c => is_File c
                                   | None => false
                                   end) (rglob_star n)).
    { apply filter_ext_in. intros q Hq. specialize (H q Hq). unfold file_bytes in H.
      destruct (lookup q n) as [[m d|es]|], (lookup q n') as [[m' d'|es']|];
        simpl; auto; discriminate. }
    rewrite E. apply Permutation_refl.
  - now apply Permutation_filter.
Qed.

(** The aggregate checksum depends on the set of paths below the directory
    and on the bytes of the regular files only: two directories that list
    the same paths, in whatever order at every level, with the same bytes in
    the files (whatever the modification times), have the same checksum. *)
Theorem agg_checksum_order_independent :
  forall (rt rt' : path) (w w' : world) (n n' : node),
    lookup rt (root w) = Some n ->
    lookup rt' (root w') = Some n' ->
    Permutation (rglob_star n) (rglob_star n') ->
    (forall q, In q (rglob_star n) -> file_bytes n q = file_bytes n' q) ->
    exists h, agg_checksum rt w = (Ok h, w) /\ agg_checksum rt' w' = (Ok h, w').
Proof.
  intros rt rt' w w' n n' Hn Hn' P H.
  exists (aggregate n). split; [now apply agg_checksum_aggregate|].
  rewrite (agg_checksum_aggregate rt' n' w' Hn'). f_equal. f_equal.
  unfold aggregate.
  rewrite <- (sorted_by_path_perm (files_of n) (files_of n') (files_of_perm n n' P H)).
  f_equal.
  assert (G : forall l h,
             (forall q, In q l -> In q (files_of n)) ->
             fold_left (fun h q => Hashlib.update h (encode (digest_at n' q))) l h
             = fold_left (fun h q => Hashlib.update h (encode (digest_at n q))) l h).
  { induction l as [|q r IH]; intros h Hin; simpl; auto.
    rewrite IH by (intros q' Hq'; apply Hin; now right).
    assert (Hq : In q (rglob_star n)).
    { assert (Hf := Hin q (or_introl eq_refl)). apply filter_In in Hf. tauto. }
    specialize (H q Hq). unfold file_bytes in H. unfold digest_at.
    destruct (lookup q n) as [[m d|es]|], (lookup q n') as [[m' d'|es']|];
      try discriminate; auto.
    now inversion H. }
  apply G. intros q Hq.
  exact (Permutation_in q (sorted_by_perm _ path_ltb (files_of n)) Hq).
Qed.

Lemma agg_checksum_order_independent_witness :
  exists h,
    agg_checksum (Path "site") w_logs = (Ok h, w_logs)
    /\ agg_checksum (Path "site") w_reordered = (Ok h, w_reordered).
Proof.
  eapply (agg_checksum_order_independent (Path "site") (Path "site") w_logs w_reordered).
  - reflexivity.
  - reflexivity.
  - apply perm_swap.
  - intros q Hq. vm_compute in Hq. destruct Hq as [<-|[<-|[]]]; reflexivity.
Defined.

(** ** make_backup after line 22 (lines 23-40), for a single file *)

(** Writing at [p], where no directory is, leaves every other regular file
    as it was. *)
Lemma put_keeps_file :
  forall p q v n n' m d,
    put p v n = Some n' ->
    (forall es, lookup p n <> Some (Dir es)) ->
    lookup q n = Some (File m d) ->
    p <> q ->
    lookup q n' = Some (File m d).
Proof.
  induction p as [|x p' IH]; intros q v n n' m d Hput Hnd Hq Hne;
    [discriminate|].
  destruct n as [m0 d0|es]; [discriminate|].
  destruct q as [|y q']; [discriminate|].
  cbn [lookup] in Hq.
  destruct p' as [|z p''].
  - cbn [put] in Hput. inversion Hput; subst n'. cbn [lookup].
    destruct (string_dec x y) as [->|Hxy].
    + exfalso. destruct (assoc y es) as [c|] eqn:Ey; [|discriminate].
      destruct q' as [|y' q'']; [now apply Hne|].
      destruct c as [m1 d1|es1]; [discriminate|].
      apply (Hnd es1). cbn [lookup]. now rewrite Ey.
    + now rewrite (assoc_set_entry_other x y v es Hxy).
  - rewrite put_deep in Hput.
    destruct (assoc x es) as [c|] eqn:Ex; [|discriminate].
    destruct (put (z :: p'') v c) as [c'|] eqn:Ep; [|discriminate].
    inversion Hput; subst n'. cbn [lookup].
    destruct (string_dec x y) as [->|Hxy].
    + rewrite assoc_replace_entry_same. rewrite Ex in Hq.
      apply (IH q' v c c' m d Ep); auto.
      * intros es1 F. apply (Hnd es1). cbn [lookup]. now rewrite Ex.
      * intros F. apply Hne. now rewrite F.
    + now rewrite (assoc_replace_entry_other x y c' es Hxy).
Qed.

Lemma store_file_new :
  forall dd x es w m d,
    lookup dd (root w) = Some (Dir es) ->
    (forall es', assoc x es <> Some (Dir es')) ->
    exists r,
      store_file (dd ++ [x]) m d w = (Ok tt, World r (clock w) (stdout w))
      /\ put (dd ++ [x]) (Some (File m d)) (root w) = Some r
      /\ lookup (dd ++ [x]) r = Some (File m d)
      /\ lookup dd r = Some (Dir (set_entry x (Some (File m d)) es)).
Proof.
  intros dd x es w m d Hd Hx.
  destruct (put_snoc dd x (Some (File m d)) (root w) es Hd) as (r & Hput & Hl).
  exists r. unfold store_file. rewrite (lookup_snoc dd x (root w) es Hd), Hput.
  split.
  - destruct (assoc x es) as [[m0 d0|es']|] eqn:E; try reflexivity.
    exfalso. now apply (Hx es').
  - assert (Hput' := Hput). split; [reflexivity|].
    split; [exact (lookup_put_same _ _ _ _ Hput')|exact Hl].
Qed.

Section Artifact.

Context {codec : TarCodec}.

(** For a source that is a regular file, with the destination directory in
    place and no directory in the way, lines 23-40 write one artifact
    [dest/<name>_<ts>[.gz]] and return its path.  Without compression the
    artifact is the file itself, bytes and modification time (so a plain
    copy is as old as its source); with compression it is an archive of one
    member named like the source, dated by the clock.  The source is left
    as it was. *)
Theorem make_backup_artifact_of_file :
  forall (ts source dest_dir : string) (compress : bool) (w : world) (m : Z) (d : bytes)
         (dd : path) (x : string) (es : list (string * node)),
    let src := Path source in
    let out := joinpath (Path dest_dir) (file_artifact_name src ts compress) in
    lookup src (root w) = Some (File m d) ->
    out = dd ++ [x] ->
    lookup dd (root w) = Some (Dir es) ->
    (forall es', assoc x es <> Some (Dir es')) ->
    out <> src ->
    exists r,
      make_backup_artifact ts src dest_dir compress w
      = (Ok (str out), World r (clock w) (stdout w))
      /\ lookup out r
         = Some (if compress
                 then File (clock w) (tar_write true [MFile (Path (name src)) m d])
                 else File m d)
      /\ lookup src r = Some (File m d).
Proof.
  intros ts source dest_dir compress w m d dd x es src out Hsrc Hout Hdd Hx Hne.
  assert (Hnd : forall es', lookup out (root w) <> Some (Dir es')).
  { intros es'. rewrite Hout, (lookup_snoc dd x (root w) es Hdd). apply Hx. }
  unfold make_backup_artifact. unfold bind at 1. unfold is_dir. rewrite Hsrc.
  cbn [is_Dir]. cbv beta iota. fold src.
  unfold file_artifact_name in out. destruct compress.
  - fold out. unfold bind at 1. unfold tarfile_create.
    unfold bind at 1. unfold write_file at 1. rewrite Hout.
    destruct (store_file_new dd x es w (clock w) (tar_write true []) Hdd Hx)
      as (r1 & Hs1 & Hp1 & Hl1 & Hd1).
    rewrite Hs1. set (w1 := World r1 (clock w) (stdout w)).
    assert (Hsrc1 : lookup src (root w1) = Some (File m d)).
    { apply (put_keeps_file (dd ++ [x]) src _ (root w) r1 m d Hp1); auto.
      - rewrite <- Hout. exact Hnd.
      - now rewrite <- Hout. }
    unfold bind at 1. unfold gather. rewrite Hsrc1. cbn [tar_add].
    assert (Hself : path_eqb src (dd ++ [x]) = false).
    { destruct (path_eqb src (dd ++ [x])) eqn:E; auto.
      apply path_eqb_eq in E. exfalso. apply Hne. now rewrite Hout. }
    rewrite Hself. unfold write_file.
    assert (Hx1 : forall es', assoc x (set_entry x (Some (File (clock w) (tar_write true [])))
                                         es) <> Some (Dir es')).
    { intros es'. rewrite assoc_set_entry_same. discriminate. }
    destruct (store_file_new dd x _ w1 (clock w1)
                (tar_write true [MFile (Path (name src)) m d]) Hd1 Hx1)
      as (r2 & Hs2 & Hp2 & Hl2 & _).
    rewrite Hs2. exists r2. cbn [clock stdout w1] in *.
    split; [reflexivity|]. split; [exact Hl2|].
    apply (put_keeps_file (dd ++ [x]) src _ (root w1) r2 m d Hp2); auto.
    + intros es'. cbn [root w1]. rewrite Hl1. discriminate.
    + now rewrite <- Hout.
  - fold out. unfold bind at 1. unfold copy2. rewrite Hsrc.
    destruct (store_file_new dd x es w m d Hdd Hx) as (r1 & Hs1 & Hp1 & Hl1 & _).
    assert (Hcopy : match lookup out (root w) with
                    | Some (Dir _) => store_file (out ++ [name src]) m d w
                    | _ => store_file out m d w
                    end = (Ok tt, World r1 (clock w) (stdout w))).
    { destruct (lookup out (root w)) as [[m0 d0|es']|] eqn:E.
      - now rewrite Hout.
      - exfalso. now apply (Hnd es').
      - now rewrite Hout. }
    rewrite Hcopy. exists r1.
    split; [reflexivity|]. split; [now rewrite Hout|].
    apply (put_keeps_file (dd ++ [x]) src _ (root w) r1 m d Hp1); auto.
    + rewrite <- Hout. exact Hnd.
    + now rewrite <- Hout.
Qed.

End Artifact.

Lemma make_backup_artifact_of_file_witness :
  exists r,
    make_backup_artifact "20250906T000000Z" (Path "data.csv") "backups" false w_dest
    = (Ok (str (joinpath (Path "backups")
                  (file_artifact_name (Path "data.csv") "20250906T000000Z" false))),
       World r (clock w_dest) (stdout w_dest))
    /\ lookup (joinpath (Path "backups")
                 (file_artifact_name (Path "data.csv") "20250906T000000Z" false)) r
       = Some (if false
               then File (clock w_dest)
                      (tar_write true [MFile (Path (name (Path "data.csv"))) 100 (encode "a,b")])
               else File 100 (encode "a,b"))
    /\ lookup (Path "data.csv") r = Some (File 100 (encode "a,b")).
Proof.
  apply (make_backup_artifact_of_file "20250906T000000Z" "data.csv" "backups" false w_dest
           100 (encode "a,b") ["backups"] "data.csv_20250906T000000Z"
           [("data.csv_1", File 100 (encode "a,b"))]).
  - reflexivity.
  - reflexivity.
  - reflexivity.
  - intros es'. discriminate.
  - discriminate.
Defined.
